(** * bumpversion.configloader: the version data model, its validation,
      its ordering and its parser, embedded from the Python source.

    The version classes are named tuples with the methods of their class
    bodies, their fields holding values of their annotated types.  They
    name [Mutatable] as a second base, which a named tuple does not take
    over: their instances have no [mutate] (see [FinalVersion]).  The
    Python objects that occur as fields are
    embedded as the sum type [pyval]; exceptions are explicit in the
    [result] type; the unbounded recursion of [Subrelease.__gt__] is bounded
    by a recursion limit, as the interpreter bounds it; the regular
    expression engine is a parameter of [Version.parse].  Two helpers of
    bumpversion.cli that do no input or output are embedded as well. *)

From Stdlib Require Import ZArith QArith Lia Ascii String DecimalString.
From Stdlib Require DecimalZ.
From stdpp Require Import base list strings gmap.
From Equations Require Import Equations.

Local Open Scope string_scope.
Local Open Scope Z_scope.

(** ** Exceptions *)

Inductive exn : Set :=
| TypeError
| ValueError
| AttributeError
| IndexError
| KeyError
| RecursionError.

Inductive result (A : Type) : Type :=
| Ok (a : A)
| Raise (e : exn).
Arguments Ok {A} a.
Arguments Raise {A} e.

#[global] Instance result_ret : MRet result := @Ok.
#[global] Instance result_bind : MBind result :=
  fun A B f m => match m with Ok a => f a | Raise e => Raise e end.
#[global] Instance result_fmap : FMap result :=
  fun A B f m => match m with Ok a => Ok (f a) | Raise e => Raise e end.

Definition is_ok {A} (r : result A) : bool :=
  match r with Ok _ => true | Raise _ => false end.

#[global] Instance exn_eq_dec : EqDecision exn.
Proof. solve_decision. Defined.

(** ** SubreleaseType (a [StrEnum]) *)

Module SubreleaseType.

Inductive t : Set := ALPHA | BETA | RELEASE_CANDIDATE | POST.

#[global] Instance eq_dec : EqDecision t.
Proof. solve_decision. Defined.

(** The member's string value ([StrEnum.__str__] returns it). *)
Definition value (m : t) : string :=
  match m with
  | ALPHA => "a"
  | BETA => "b"
  | RELEASE_CANDIDATE => "rc"
  | POST => "post"
  end.

(** [list(SubreleaseType)]: the members in declaration order. *)
Definition members : list t := [ALPHA; BETA; RELEASE_CANDIDATE; POST].

(** [self != SubreleaseType.POST] *)
Definition is_pre (self : t) : bool := negb (bool_decide (self = POST)).

End SubreleaseType.

(** ** Subrelease (a [NamedTuple]) *)

Record Subrelease : Set := mkSubrelease {
  sub_type : SubreleaseType.t;
  sub_number : Z
}.

#[global] Instance Subrelease_eq_dec : EqDecision Subrelease.
Proof. solve_decision. Defined.

(** ** Python values

    The objects that occur as fields of the version classes, by their
    annotations: [None], [int], [str], [Release] (a tuple of ints) and
    [Subrelease].  A [SubreleaseType] member is itself a [str], the one
    of its value. *)

Inductive pyval : Type :=
| PNone
| PInt (n : Z)
| PStr (s : string)
| PRelease (r : list Z)
| PSub (s : Subrelease).

#[global] Instance pyval_eq_dec : EqDecision pyval.
Proof. solve_decision. Defined.

Definition of_member (m : SubreleaseType.t) : pyval := PStr (SubreleaseType.value m).

Module SubreleaseTypeOrder.
Import SubreleaseType.

(** [SubreleaseType(obj)]: look the member up by value; [ValueError]
    when no member has this value. *)
Definition lookup (obj : pyval) : result t :=
  match obj with
  | PStr s =>
      match List.find (fun m => String.eqb (value m) s) members with
      | Some m => Ok m
      | None => Raise ValueError
      end
  | _ => Raise ValueError
  end.

(** [list.index] *)
Fixpoint index (l : list t) (m : t) : result Z :=
  match l with
  | [] => Raise ValueError
  | x :: l' => if bool_decide (x = m) then Ok 0 else (Z.succ <$> index l' m)
  end.

(** [SubreleaseType.order]: 2.5 for what is not a member, else the
    position in the declaration.  The result is a Python number (a
    float or an int); both are exact rationals here. *)
Definition order (obj : pyval) : result Q :=
  match lookup obj with
  | Raise ValueError => Ok (5 # 2)%Q
  | Raise e => Raise e
  | Ok m => inject_Z <$> index members m
  end.

Definition Qltb (x y : Q) : bool :=
  match (x ?= y)%Q with Lt => true | _ => false end.
Definition Qleb (x y : Q) : bool :=
  match (x ?= y)%Q with Gt => false | _ => true end.

Definition __lt__ (self : t) (other : pyval) : result bool :=
  a ← order (of_member self); b ← order other; Ok (Qltb a b).
Definition __le__ (self : t) (other : pyval) : result bool :=
  a ← order (of_member self); b ← order other; Ok (Qleb a b).
Definition __ge__ (self : t) (other : pyval) : result bool :=
  a ← order (of_member self); b ← order other; Ok (Qleb b a).
Definition __gt__ (self : t) (other : pyval) : result bool :=
  a ← order (of_member self); b ← order other; Ok (Qltb b a).

End SubreleaseTypeOrder.

(** ** Rich comparison

    [tuple_richcompare] is the comparison of two tuples: the first
    position at which the items differ decides, by the items' own
    operator; when one tuple is a prefix of the other, the sizes decide
    (the sizes of what is left after the common prefix compare as the
    sizes of the whole tuples do). *)

Section TupleRichcompare.
Context {A : Type} (item_eq : A → A → bool) (item_op : A → A → result bool)
        (size_op : Z → Z → bool).

Fixpoint tuple_richcompare (v w : list A) : result bool :=
  match v, w with
  | x :: v', y :: w' =>
      if item_eq x y then tuple_richcompare v' w' else item_op x y
  | _, _ => Ok (size_op (Z.of_nat (length v)) (Z.of_nat (length w)))
  end.
End TupleRichcompare.

(** What a comparison method returns. *)
Inductive answer : Set :=
| NotImplemented
| Bool (b : bool).

(** [==] on the values of [pyval]: [None] is equal to itself only, ints,
    strings and tuples are equal when their contents are ([Subrelease]
    inherits [tuple.__eq__]), values of different types are unequal. *)
Definition py_eq (v w : pyval) : bool := bool_decide (v = w).

Section Methods.
(** The operator [>] as a method body evaluates it: one call deeper. *)
Variable inner_gt : pyval → pyval → result bool.

Definition Subrelease___gt__ (self : Subrelease) (other : pyval) : result answer :=
  match other with
  | PNone => Raise AttributeError          (* [other.is_pre()] on [None] *)
  | PSub _ => Bool <$> inner_gt other (PSub self)    (* [other > self] *)
  | _ => Ok NotImplemented
  end.

(** [tuple.__gt__] and [tuple.__lt__] of a [Release]; a [Subrelease] is
    a tuple too, [(type, number)]: an int is never equal to its type, and
    comparing an int with a [SubreleaseType] falls to the reflected
    method of [SubreleaseType]. *)
Definition Release___gt__ (self : list Z) (other : pyval) : result answer :=
  match other with
  | PRelease o =>
      Bool <$> tuple_richcompare Z.eqb (fun x y => Ok (y <? x)) (fun m n => n <? m) self o
  | PSub s =>
      match self with
      | [] => Ok (Bool false)
      | x :: _ => Bool <$> SubreleaseTypeOrder.__lt__ (sub_type s) (PInt x)
      end
  | _ => Ok NotImplemented
  end.

Definition Release___lt__ (self : list Z) (other : pyval) : result answer :=
  match other with
  | PRelease o =>
      Bool <$> tuple_richcompare Z.eqb (fun x y => Ok (x <? y)) (fun m n => m <? n) self o
  | PSub s =>
      match self with
      | [] => Ok (Bool true)
      | x :: _ => Bool <$> SubreleaseTypeOrder.__gt__ (sub_type s) (PInt x)
      end
  | _ => Ok NotImplemented
  end.

(** [v.__gt__(w)] and [v.__lt__(w)] for the builtin types. *)
Definition builtin___gt__ (self other : pyval) : result answer :=
  match self, other with
  | PInt a, PInt b => Ok (Bool (b <? a))
  | PStr a, PStr b => Ok (Bool (String.ltb b a))
  | PRelease a, _ => Release___gt__ a other
  | _, _ => Ok NotImplemented
  end.

Definition builtin___lt__ (self other : pyval) : result answer :=
  match self, other with
  | PInt a, PInt b => Ok (Bool (a <? b))
  | PStr a, PStr b => Ok (Bool (String.ltb a b))
  | PRelease a, _ => Release___lt__ a other
  | _, _ => Ok NotImplemented
  end.

(** The operator [>] with a [Subrelease] on the left: its method, then
    the reflected method of the other operand. *)
Definition Subrelease_gt (self : Subrelease) (other : pyval) : result bool :=
  r ← Subrelease___gt__ self other;
  match r with
  | Bool b => Ok b
  | NotImplemented =>
      r' ← builtin___lt__ other (PSub self);
      match r' with
      | Bool b => Ok b
      | NotImplemented => Raise TypeError
      end
  end.

(** [self == other or self > other] *)
Definition Subrelease___ge__ (self : Subrelease) (other : pyval) : result bool :=
  if py_eq (PSub self) other then Ok true else Subrelease_gt self other.

(** [not (self >= other)] *)
Definition Subrelease___lt__ (self : Subrelease) (other : pyval) : result bool :=
  negb <$> Subrelease___ge__ self other.

(** [self == other or self < other] *)
Definition Subrelease___le__ (self : Subrelease) (other : pyval) : result bool :=
  if py_eq (PSub self) other then Ok true else Subrelease___lt__ self other.

Definition method_gt (self other : pyval) : result answer :=
  match self with
  | PSub s => Subrelease___gt__ s other
  | _ => builtin___gt__ self other
  end.

Definition method_lt (self other : pyval) : result answer :=
  match self with
  | PSub s => Bool <$> Subrelease___lt__ s other
  | _ => builtin___lt__ self other
  end.

(** The operators: the left operand's method, then the right operand's
    reflected method, then [TypeError]. *)
Definition dispatch (method reflected : pyval → pyval → result answer)
    (v w : pyval) : result bool :=
  r ← method v w;
  match r with
  | Bool b => Ok b
  | NotImplemented =>
      r' ← reflected w v;
      match r' with
      | Bool b => Ok b
      | NotImplemented => Raise TypeError
      end
  end.

Definition dispatch_gt : pyval → pyval → result bool := dispatch method_gt method_lt.
Definition dispatch_lt : pyval → pyval → result bool := dispatch method_lt method_gt.
End Methods.

(** The operators under a recursion limit: at the limit, a further call
    raises [RecursionError]. *)
Fixpoint op_gt (limit : nat) : pyval → pyval → result bool :=
  dispatch_gt (match limit with
               | O => fun _ _ => Raise RecursionError
               | S n => op_gt n
               end).

Definition inner (limit : nat) : pyval → pyval → result bool :=
  match limit with
  | O => fun _ _ => Raise RecursionError
  | S n => op_gt n
  end.

Definition op_lt (limit : nat) : pyval → pyval → result bool :=
  dispatch_lt (inner limit).

(** ** Numbers and strings *)

(** [isinstance(n, int) and n >= 0]; the fields are ints by their type. *)
Definition is_pos_int (n : Z) : bool := 0 <=? n.

(** [str(n)] of an int: its decimal digits, with a minus sign below 0. *)
Definition str_int (n : Z) : string := NilZero.string_of_int (Z.to_int n).

(** [sep.join(parts)] *)
Definition join (sep : string) (parts : list string) : string :=
  String.concat sep parts.

(** [int(s)] on a digit string, [ValueError] on what is not a number. *)
Definition int_of_str (s : string) : result Z :=
  match NilZero.int_of_string s with
  | Some d => Ok (Z.of_int d)
  | None => Raise ValueError
  end.

(** [s.split(".")] *)
Fixpoint split_dot_go (cur : string) (s : string) : list string :=
  match s with
  | EmptyString => [String.rev cur]
  | String c s' =>
      if Ascii.eqb c "."%char then String.rev cur :: split_dot_go EmptyString s'
      else split_dot_go (String c cur) s'
  end.
Definition split_dot (s : string) : list string := split_dot_go EmptyString s.

(** ** Release (a [tuple] of ints) *)

Module Release.

Definition t : Type := list Z.

Definition len (self : t) : Z := Z.of_nat (length self).

(** A Python index: below zero it counts from the end; [IndexError]
    outside of the sequence. *)
Definition position (self : t) (index : Z) : result nat :=
  let i := if index <? 0 then index + len self else index in
  if (0 <=? i) && (i <? len self) then Ok (Z.to_nat i) else Raise IndexError.

(** [self[index]] *)
Definition getitem (self : t) (index : Z) : result Z :=
  i ← position self index;
  match self !! i with
  | Some x => Ok x
  | None => Raise IndexError
  end.

(** [lst = list(self); lst[key] = value; Release(lst)] *)
Definition mutate (self : t) (key : Z) (value : Z) : result t :=
  i ← position self key;
  Ok (<[i := value]> self).

Definition validate (self : t) : result unit :=
  if len self <? 1 then Raise ValueError
  else if forallb is_pos_int self then Ok tt else Raise ValueError.

Definition major (self : t) : result Z := getitem self 0.
Definition minor (self : t) : option Z :=
  if 1 <? len self then self !! 1%nat else None.
Definition patch (self : t) : option Z :=
  if 2 <? len self then self !! 2%nat else None.
Definition subpatch (self : t) : list Z :=
  if len self <? 4 then [] else drop 3 self.

(** [".".join(str(n) for n in self)] *)
Definition __str__ (self : t) : string := join "." (str_int <$> self).

(** [while len(parts) < index: parts.append(0)] *)
Equations? pad (parts : list Z) (index : Z) : list Z
  by wf (Z.to_nat (index - len parts)) lt :=
  pad parts index with Z_lt_dec (len parts) index := {
    | left _ => pad (parts ++ [0])%list index
    | right _ => parts }.
Proof. unfold len in *. rewrite length_app. simpl. lia. Qed.

Definition bump (self : t) (index : Z) (step : Z) : result t :=
  if index <? len self then
    x ← getitem self index;
    mutate self index (x + step)
  else if 0 <? step then
    Ok (pad self index ++ [step])%list
  else Raise ValueError.

(** [lst = list(self[:3]); while len(lst) < 3: lst.append(0)] *)
Definition triple (self : t) : t := pad (take 3 self) 3.

End Release.

(** ** Subrelease: validation and rendering *)

Definition Subrelease_validate (self : Subrelease) : result unit :=
  if is_pos_int (sub_number self) then Ok tt else Raise ValueError.

(** [f"{self.type}{self.number}"] *)
Definition Subrelease_str (self : Subrelease) : string :=
  SubreleaseType.value (sub_type self) +:+ str_int (sub_number self).

(** The module's [validate(obj)]: nothing to do for [None]. *)
Definition validate {A : Type} (obj_validate : A → result unit) (obj : option A)
  : result unit :=
  match obj with
  | None => Ok tt
  | Some o => obj_validate o
  end.

(** ** FinalVersion *)

Module FinalVersion.

Record t : Type := mk {
  epoch : option Z;
  release : Release.t
}.

(** A key of [_asdict()] with a value for it. *)
Inductive item : Type :=
| set_epoch (value : option Z)
| set_release (value : Release.t).

(** What [Mutatable.mutate] computes on a value of the class:
    [d = self._asdict(); d[key] = value; type(self)( **d )]. *)
Definition mutate (self : t) (kv : item) : t :=
  match kv with
  | set_epoch value => mk value (release self)
  | set_release value => mk (epoch self) value
  end.

(** The attribute [mutate] of an instance.  The class statement is
    [class FinalVersion(NamedTuple, Mutatable)]: [typing.NamedTuple] makes
    the class from the annotated fields and the methods of the body and
    leaves the other bases out (CPython 3.6 to 3.8; from 3.9 on the class
    statement itself is refused), so the lookup of [mutate] on an instance
    raises [AttributeError].  The same holds of [PublicVersion] and
    [Version]. *)
Definition getattr_mutate (self : t) : result (item → t) := Raise AttributeError.

Definition validate (self : t) : result unit :=
  match epoch self with
  | Some e => if is_pos_int e then Release.validate (release self) else Raise ValueError
  | None => Release.validate (release self)
  end.

Definition __str__ (self : t) : string :=
  let segments := match epoch self with
                  | Some e => [str_int e]
                  | None => []
                  end in
  let segments := (segments ++ [join "." (str_int <$> release self)])%list in
  join "!" segments.

Definition _comparable (self : t) : result t :=
  let out := self in
  out ← match epoch out with
        | None => m ← getattr_mutate out; Ok (m (set_epoch (Some 0)))
        | Some _ => Ok out
        end;
  Ok out.

End FinalVersion.

(** ** PublicVersion *)

Module PublicVersion.

Record t : Type := mk {
  epoch : option Z;
  release : Release.t;
  subrelease : option Subrelease;
  dev : option Z
}.

Inductive item : Type :=
| set_epoch (value : option Z)
| set_release (value : Release.t)
| set_subrelease (value : option Subrelease)
| set_dev (value : option Z).

Definition mutate (self : t) (kv : item) : t :=
  match kv with
  | set_epoch value => mk value (release self) (subrelease self) (dev self)
  | set_release value => mk (epoch self) value (subrelease self) (dev self)
  | set_subrelease value => mk (epoch self) (release self) value (dev self)
  | set_dev value => mk (epoch self) (release self) (subrelease self) value
  end.

(** The attribute [mutate] of an instance: there is none. *)
Definition getattr_mutate (self : t) : result (item → t) := Raise AttributeError.

Definition final (self : t) : FinalVersion.t :=
  FinalVersion.mk (epoch self) (release self).

(** [self.subrelease.validate()] is a method call on the field itself:
    [None] has no such attribute. *)
Definition validate (self : t) : result unit :=
  _ ← FinalVersion.validate (final self);
  _ ← match subrelease self with
      | Some s => Subrelease_validate s
      | None => Raise AttributeError
      end;
  match dev self with
  | Some d => if is_pos_int d then Ok tt else Raise ValueError
  | None => Ok tt
  end.

(** [f"{self.final()}.{self.subrelease}"] *)
Definition __str__ (self : t) : string :=
  FinalVersion.__str__ (final self) +:+ "." +:+
  match subrelease self with
  | Some s => Subrelease_str s
  | None => "None"
  end.

Definition _comparable (self : t) : result t :=
  let out := self in
  out ← match epoch out with
        | None => m ← getattr_mutate out; Ok (m (set_epoch (Some 0)))
        | Some _ => Ok out
        end;
  out ← match dev out with
        | None => m ← getattr_mutate out; Ok (m (set_dev (Some (-1))))
        | Some _ => Ok out
        end;
  Ok out.

End PublicVersion.

(** ** Version *)

(** [set(ascii_letters + digits + ".")] *)
Definition ascii_letters : string :=
  "abcdefghijklmnopqrstuvwxyzABCDEFGHIJKLMNOPQRSTUVWXYZ".
Definition digits : string := "0123456789".
Definition local_chars : gset ascii :=
  list_to_set (list_ascii_of_string (ascii_letters +:+ digits +:+ ".")).

(** [traverse f l]: the results of [f] on the items of [l], or the first
    exception. *)
Fixpoint traverse {A B : Type} (f : A → result B) (l : list A) : result (list B) :=
  match l with
  | [] => Ok []
  | x :: l' => y ← f x; ys ← traverse f l'; Ok (y :: ys)
  end.

Module Version.

Record t : Type := mk {
  epoch : option Z;
  release : Release.t;
  subrelease : option Subrelease;
  dev : option Z;
  local : option string
}.

Inductive item : Type :=
| set_epoch (value : option Z)
| set_release (value : Release.t)
| set_subrelease (value : option Subrelease)
| set_dev (value : option Z)
| set_local (value : option string).

Definition mutate (self : t) (kv : item) : t :=
  match kv with
  | set_epoch value => mk value (release self) (subrelease self) (dev self) (local self)
  | set_release value => mk (epoch self) value (subrelease self) (dev self) (local self)
  | set_subrelease value => mk (epoch self) (release self) value (dev self) (local self)
  | set_dev value => mk (epoch self) (release self) (subrelease self) value (local self)
  | set_local value => mk (epoch self) (release self) (subrelease self) (dev self) value
  end.

(** The attribute [mutate] of an instance: there is none. *)
Definition getattr_mutate (self : t) : result (item → t) := Raise AttributeError.

(** [PublicVersion(self.epoch, self.release, self.subrelease)]: the
    fourth field, [dev], takes its default. *)
Definition public (self : t) : PublicVersion.t :=
  PublicVersion.mk (epoch self) (release self) (subrelease self) None.

Definition final (self : t) : FinalVersion.t :=
  PublicVersion.final (public self).

Definition validate (self : t) : result unit :=
  _ ← PublicVersion.validate (public self);
  match local self with
  | None => Ok tt
  | Some l =>
      let chars := list_ascii_of_string l in
      if negb (forallb (fun c => bool_decide (c ∈ local_chars)) chars) then
        Raise ValueError
      else
        match chars with
        | [] => Raise IndexError                        (* [self.local[0]] *)
        | first :: _ =>
            let last := List.last chars first in
            if Ascii.eqb first "." || Ascii.eqb last "." then Raise ValueError
            else Ok tt
        end
  end.

Definition __str__ (self : t) : string :=
  let segments := [PublicVersion.__str__ (public self)] in
  let segments := match local self with
                  | Some l => (segments ++ [l])%list
                  | None => segments
                  end in
  join "+" segments.

Definition _comparable (self : t) : result t :=
  let out := self in
  out ← match epoch out with
        | None => m ← getattr_mutate out; Ok (m (set_epoch (Some 0)))
        | Some _ => Ok out
        end;
  out ← match dev out with
        | None => m ← getattr_mutate out; Ok (m (set_dev (Some (-1))))
        | Some _ => Ok out
        end;
  out ← match local out with
        | None => m ← getattr_mutate out; Ok (m (set_local (Some "")))
        | Some _ => Ok out
        end;
  Ok out.

(** *** Parsing

    [match.groupdict()] is a dict from the names of the pattern's groups
    to the matched text, [None] for a group that took no part. *)

(** [g.get(key)] *)
Definition get (g : gmap string (option string)) (key : string) : option string :=
  match g !! key with
  | Some v => v
  | None => None
  end.

(** The truth value of an optional string. *)
Definition truthy (o : option string) : bool :=
  match o with
  | Some s => negb (String.eqb s "")
  | None => false
  end.

(** [int(x) if x else None] *)
Definition int_if (o : option string) : result (option Z) :=
  match o with
  | Some s => if truthy o then Some <$> int_of_str s else Ok None
  | None => Ok None
  end.

(** [Version.parse] from the groups of the match on. *)
Definition parse_groups (g : gmap string (option string)) : result t :=
  epoch ← int_if (get g "epoch");
  release ← match get g "release" with
            | Some s => traverse int_of_str (split_dot s)
            | None => Raise AttributeError
            end;
  let subrelease_type := get g "subrelease_type" in
  subrelease ← (if truthy subrelease_type then
                  ty ← SubreleaseTypeOrder.lookup
                         (match subrelease_type with Some s => PStr s | None => PNone end);
                  number ← match g !! "subrelease_number" with
                           | Some (Some s) => int_of_str s
                           | Some None => Raise TypeError
                           | None => Raise KeyError
                           end;
                  Ok (Some (mkSubrelease ty number))
                else Ok None);
  dev ← int_if (get g "dev");
  let v := mk epoch release subrelease dev (get g "local") in
  _ ← validate v;
  Ok v.

Section Parse.
(** [version_re.match]: the groups of the match, if there is one. *)
Variable version_re_match : string → option (gmap string (option string)).

Definition parse (s : string) : result t :=
  match version_re_match s with
  | None => Raise ValueError
  | Some g => parse_groups g
  end.
End Parse.

End Version.

(** [VERSION_PATTERN], a verbose regular expression; [version_re] puts
    it between [^\s*] and [\s*$]. *)
Definition VERSION_PATTERN : string :=
  "
    (?:
        (?:(?P<epoch>[0-9]+)!)?            # epoch
        (?P<release>[0-9]+(?:\.[0-9]+)*" +:+ ")   # release segment
        (\.
            (?P<sub_type>a|b|rc|post)      # subrelease type
            (?P<sub_number>[0-9]+)         # subrelease number
        )?
        (\.dev(?P<dev>[0-9]+)?             # dev number
    )
    (?:\+(?P<local>[a-zA-Z0-9]*" +:+ "))?         # local version
".

(** The groups of a verbose pattern left open at its end: a backslash
    escapes the next character, [#] starts a comment that runs to the end
    of the line, brackets enclose a character class. *)
Inductive lexer_state : Set := Plain | Escaped | Comment | Class | ClassEscaped.

Fixpoint open_groups_go (st : lexer_state) (depth : Z) (s : string) : Z :=
  match s with
  | EmptyString => depth
  | String c s' =>
      match st with
      | Escaped => open_groups_go Plain depth s'
      | ClassEscaped => open_groups_go Class depth s'
      | Comment =>
          open_groups_go (if Ascii.eqb c "010" then Plain else Comment) depth s'
      | Class =>
          if Ascii.eqb c "\" then open_groups_go ClassEscaped depth s'
          else if Ascii.eqb c "]" then open_groups_go Plain depth s'
          else open_groups_go Class depth s'
      | Plain =>
          if Ascii.eqb c "\" then open_groups_go Escaped depth s'
          else if Ascii.eqb c "#" then open_groups_go Comment depth s'
          else if Ascii.eqb c "[" then open_groups_go Class depth s'
          else if Ascii.eqb c "(" then open_groups_go Plain (depth + 1) s'
          else if Ascii.eqb c ")" then open_groups_go Plain (depth - 1) s'
          else open_groups_go Plain depth s'
      end
  end.

Definition open_groups (pattern : string) : Z := open_groups_go Plain 0 pattern.

(** ** Comparing version values

    The version classes are named tuples and inherit the comparison of
    tuples. *)

Inductive version : Type :=
| VFinal (v : FinalVersion.t)
| VPublic (v : PublicVersion.t)
| VVersion (v : Version.t).

Definition opt_int (o : option Z) : pyval :=
  match o with Some n => PInt n | None => PNone end.
Definition opt_sub (o : option Subrelease) : pyval :=
  match o with Some s => PSub s | None => PNone end.
Definition opt_str (o : option string) : pyval :=
  match o with Some s => PStr s | None => PNone end.

(** The fields, in order. *)
Definition to_tuple (v : version) : list pyval :=
  match v with
  | VFinal f => [opt_int (FinalVersion.epoch f); PRelease (FinalVersion.release f)]
  | VPublic p =>
      [opt_int (PublicVersion.epoch p); PRelease (PublicVersion.release p);
       opt_sub (PublicVersion.subrelease p); opt_int (PublicVersion.dev p)]
  | VVersion w =>
      [opt_int (Version.epoch w); PRelease (Version.release w);
       opt_sub (Version.subrelease w); opt_int (Version.dev w);
       opt_str (Version.local w)]
  end.

(** [first._comparable()] *)
Definition _comparable (v : version) : result version :=
  match v with
  | VFinal f => VFinal <$> FinalVersion._comparable f
  | VPublic p => VPublic <$> PublicVersion._comparable p
  | VVersion w => VVersion <$> Version._comparable w
  end.

Section Comparison.
Variable limit : nat.

Definition tuple_eq (v w : list pyval) : bool := bool_decide (v = w).
Definition tuple_gt : list pyval → list pyval → result bool :=
  tuple_richcompare py_eq (op_gt limit) (fun m n => n <? m).
Definition tuple_lt : list pyval → list pyval → result bool :=
  tuple_richcompare py_eq (op_lt limit) (fun m n => m <? n).

(** [_compare]: 0, 1, -1, or [None] when no branch returns. *)
Definition _compare (first second : version) : result (option Z) :=
  if tuple_eq (to_tuple first) (to_tuple second) then Ok (Some 0) else
  gt ← tuple_gt (to_tuple first) (to_tuple second);
  if gt : bool then Ok (Some 1) else
  lt ← tuple_lt (to_tuple first) (to_tuple second);
  if lt : bool then Ok (Some (-1)) else
  Ok None.
End Comparison.

Section Compare.
(** [compare] on any operands with the two operations it calls. *)
Context {A : Type}.
Variable compare_directly : A → A → result (option Z).  (* [_compare] *)
Variable comparable_form : A → result A.                (* [x._comparable()] *)

Definition compare_with (first second : A) : result (option Z) :=
  match compare_directly first second with
  | Raise TypeError =>
      match comparable_form first with
      | Raise AttributeError => Raise TypeError          (* [raise e] *)
      | Raise e' => Raise e'
      | Ok first' =>
          match comparable_form second with
          | Raise AttributeError => Raise TypeError
          | Raise e' => Raise e'
          | Ok second' => compare_directly first' second'
          end
      end
  | r => r
  end.

(** [Comparable._compare]: the [finally] clause raises, whatever the
    [try] and the [except] clauses were about to return or raise. *)
Definition Comparable__compare (self other : A) : result (option Z) :=
  let attempt :=
    match compare_directly self other with
    | Raise TypeError =>
        self' ← comparable_form self;
        other' ← comparable_form other;
        compare_directly self' other'
    | r => r
    end in
  Raise TypeError.
End Compare.

Definition compare (limit : nat) : version → version → result (option Z) :=
  compare_with (_compare limit) _comparable.

(** ** The specification's words, to compare the code with *)

(** The precedence of subrelease types: alpha, beta, release candidate,
    then whatever is not recognized, then post. *)
Inductive precedence_class : Set :=
| Alpha
| Beta
| ReleaseCandidate
| Unrecognized
| Post.

#[global] Instance precedence_class_eq_dec : EqDecision precedence_class.
Proof. solve_decision. Defined.

Definition precedence_chain : list precedence_class :=
  [Alpha; Beta; ReleaseCandidate; Unrecognized; Post].

Definition classify (obj : pyval) : precedence_class :=
  match obj with
  | PStr s =>
      if String.eqb s "a" then Alpha
      else if String.eqb s "b" then Beta
      else if String.eqb s "rc" then ReleaseCandidate
      else if String.eqb s "post" then Post
      else Unrecognized
  | _ => Unrecognized
  end.

(** The place of a class in the chain. *)
Fixpoint place (l : list precedence_class) (c : precedence_class) : nat :=
  match l with
  | [] => O
  | x :: l' => if bool_decide (x = c) then O else S (place l' c)
  end.

Definition precedes (c d : precedence_class) : bool :=
  Nat.ltb (place precedence_chain c) (place precedence_chain d).

(** What the specification asks of two subreleases: the precedence of the
    types first, then the numbers. *)
Definition Subrelease_gt_spec (a b : Subrelease) : bool :=
  precedes (classify (of_member (sub_type b))) (classify (of_member (sub_type a)))
  || (bool_decide (sub_type a = sub_type b) && (sub_number b <? sub_number a)).

(** [c in s] *)
Fixpoint occurs (c : ascii) (s : string) : bool :=
  match s with
  | EmptyString => false
  | String x s' => Ascii.eqb x c || occurs c s'
  end.

(** Comparison as the specification words it: directly if that gives a
    result, else once more on the comparable forms, else an error. *)
Definition compare_spec (limit : nat) (first second : version) : result (option Z) :=
  match _compare limit first second with
  | Ok r => Ok r
  | Raise _ =>
      match _comparable first, _comparable second with
      | Ok first', Ok second' => _compare limit first' second'
      | _, _ => Raise TypeError
      end
  end.


(** The invariants of a version value. *)
Definition local_label_ok (l : string) : bool :=
  let chars := list_ascii_of_string l in
  forallb (fun c => bool_decide (c ∈ local_chars)) chars
  && negb (bool_decide (head chars = Some "."%char))
  && negb (bool_decide (List.last chars "a"%char = "."%char)).

Definition invariants_hold (v : Version.t) : bool :=
  negb (bool_decide (Version.release v = []))
  && forallb (fun n => 0 <=? n) (Version.release v)
  && from_option (fun e => 0 <=? e) true (Version.epoch v)
  && from_option (fun s => 0 <=? sub_number s) true (Version.subrelease v)
  && from_option (fun d => 0 <=? d) true (Version.dev v)
  && from_option local_label_ok true (Version.local v).

(** The groups a match on ["1.0.0a1"] could at best give. *)
Definition groups_1_0_0a1 : gmap string (option string) :=
  <["epoch" := None]> (<["release" := Some "1.0.0"]> (<["sub_type" := Some "a"]>
  (<["sub_number" := Some "1"]> (<["dev" := None]> (<["local" := None]> ∅))))).

Definition is_sub (v : pyval) : Prop :=
  match v with PSub _ => True | _ => False end.

(** The numbers [order] gives to the classes. *)
Definition rank (c : precedence_class) : Q :=
  match c with
  | Alpha => inject_Z 0
  | Beta => inject_Z 1
  | ReleaseCandidate => inject_Z 2
  | Unrecognized => (5 # 2)%Q
  | Post => inject_Z 3
  end.

(** ** bumpversion.cli: the helpers that do no input or output *)

Module Cli.

Definition OPTIONAL_ARGUMENTS_THAT_TAKE_VALUES : list string :=
  ["--config-file"; "--current-version"; "--message"; "--new-version";
   "--parse"; "--serialize"; "--search"; "--replace"; "--tag-name";
   "--tag-message"; "-m"].

(** [arg.startswith("-")] *)
Definition startswith_dash (arg : string) : bool :=
  match arg with
  | String c _ => Ascii.eqb c "-"
  | EmptyString => false
  end.

(** [list(enumerate(args))] *)
Definition enumerate {A : Type} (args : list A) : list (nat * A) :=
  zip (seq 0 (length args)) args.

(** The test of the loop body: [previous] is [args[i - 1]], or [None]
    for the first argument. *)
Definition is_positional (args : list string) (i : nat) (arg : string) : bool :=
  let previous := if (0 <? i)%nat then args !! (i - 1)%nat else None in
  negb (startswith_dash arg)
  && negb (match previous with
           | Some p => bool_decide (p ∈ OPTIONAL_ARGUMENTS_THAT_TAKE_VALUES)
           | None => false
           end).

Definition positions (args : list string) : list nat :=
  omap (fun '(i, arg) => if is_positional args i arg then Some i else None)
       (enumerate args).

Definition split_args_in_optional_and_positional (args : list string)
  : list string * list string :=
  let positions := positions args in
  let positionals :=
    omap (fun '(i, arg) => if bool_decide (i ∈ positions) then Some arg else None)
         (enumerate args) in
  let args' :=
    omap (fun '(i, arg) => if bool_decide (i ∈ positions) then None else Some arg)
         (enumerate args) in
  (positionals, args').

(** [s.lower()], on ASCII letters. *)
Definition lower_char (c : ascii) : ascii :=
  let n := nat_of_ascii c in
  if (65 <=? n)%nat && (n <=? 90)%nat then ascii_of_nat (n + 32) else c.

Fixpoint lower (s : string) : string :=
  match s with
  | EmptyString => EmptyString
  | String c s' => String (lower_char c) (lower s')
  end.

(** [ConfigurationIni._loads_bool]: a lookup in a dict literal,
    [KeyError] for any other string. *)
Definition _loads_bool (s : string) : result bool :=
  let table : gmap string bool :=
    list_to_map [("1", true); ("true", true); ("on", true); ("yes", true);
                 ("0", false); ("false", false); ("off", false); ("no", false)] in
  match table !! lower s with
  | Some b => Ok b
  | None => Raise KeyError
  end.

(** [ConfigurationIni._dumps_bool]: [["True", "False"][int(val)]] *)
Definition _dumps_bool (val : bool) : result string :=
  match ["True"; "False"] !! (if val then 1%nat else 0%nat) with
  | Some s => Ok s
  | None => Raise IndexError
  end.

End Cli.

(** ** Orders to compare the code with *)

(** The lexicographic order of two sequences of ints. *)
Fixpoint lex_compare (v w : list Z) : comparison :=
  match v, w with
  | [], [] => Eq
  | [], _ :: _ => Lt
  | _ :: _, [] => Gt
  | x :: v', y :: w' =>
      match x ?= y with
      | Eq => lex_compare v' w'
      | c => c
      end
  end.

(** The order of two optional ints as the operators have it: ints by
    their value, two absent ones as equal, an absent one against a present
    one not at all. *)
Definition opt_compare (a b : option Z) : result comparison :=
  match a, b with
  | None, None => Ok Eq
  | Some x, Some y => Ok (x ?= y)
  | _, _ => Raise TypeError
  end.

(** Whether [_comparable] finds every field present that it would
    fill. *)
Definition nothing_to_fill (v : version) : bool :=
  match v with
  | VFinal f => bool_decide (is_Some (FinalVersion.epoch f))
  | VPublic p =>
      bool_decide (is_Some (PublicVersion.epoch p))
      && bool_decide (is_Some (PublicVersion.dev p))
  | VVersion w =>
      bool_decide (is_Some (Version.epoch w))
      && bool_decide (is_Some (Version.dev w))
      && bool_decide (is_Some (Version.local w))
  end.

(** What [_compare] returns for an order. *)
Definition sign (c : comparison) : Z :=
  match c with
  | Eq => 0
  | Lt => -1
  | Gt => 1
  end.


(** * Properties *)

(** ** The precedence of subrelease types *)

Section Precedence.
Import SubreleaseType SubreleaseTypeOrder.

Lemma order_rank (obj : pyval) : order obj = Ok (rank (classify obj)).
Proof.
  destruct obj as [|n|s|r|s]; try reflexivity.
  unfold order, lookup, classify, members.
  cbn [List.find value].
  rewrite !(String.eqb_sym _ s).
  destruct (String.eqb s "a"); [reflexivity|].
  destruct (String.eqb s "b"); [reflexivity|].
  destruct (String.eqb s "rc"); [reflexivity|].
  destruct (String.eqb s "post"); reflexivity.
Qed.

Lemma rank_lt (c d : precedence_class) : Qltb (rank c) (rank d) = precedes c d.
Proof. destruct c, d; reflexivity. Qed.

Lemma rank_le (c d : precedence_class) : Qleb (rank c) (rank d) = negb (precedes d c).
Proof. destruct c, d; reflexivity. Qed.

(** C7: the comparison methods of [SubreleaseType] order a member and
    any other value by the chain alpha, beta, release candidate,
    unrecognized, post. *)
Theorem SubreleaseType_precedence (self : SubreleaseType.t) (other : pyval) :
  __lt__ self other = Ok (precedes (classify (of_member self)) (classify other)) ∧
  __gt__ self other = Ok (precedes (classify other) (classify (of_member self))) ∧
  __le__ self other = Ok (negb (precedes (classify other) (classify (of_member self)))) ∧
  __ge__ self other = Ok (negb (precedes (classify (of_member self)) (classify other))).
Proof.
  unfold __lt__, __gt__, __le__, __ge__.
  rewrite !order_rank; simpl.
  rewrite !rank_lt, !rank_le. auto.
Qed.

Lemma classify_member (m : SubreleaseType.t) :
  classify (of_member m) =
  match m with
  | ALPHA => Alpha
  | BETA => Beta
  | RELEASE_CANDIDATE => ReleaseCandidate
  | POST => Post
  end.
Proof. destruct m; reflexivity. Qed.

Lemma precedence_chain_strict :
  precedes Alpha Beta = true ∧ precedes Beta ReleaseCandidate = true ∧
  precedes ReleaseCandidate Unrecognized = true ∧ precedes Unrecognized Post = true.
Proof. repeat split. Qed.
End Precedence.

(** ** Comparing subreleases *)

Lemma op_gt_unfold (limit : nat) : op_gt limit = dispatch_gt (inner limit).
Proof. destruct limit; reflexivity. Qed.

Lemma op_gt_Subrelease_recursion (limit : nat) (a b : Subrelease) :
  op_gt limit (PSub a) (PSub b) = Raise RecursionError.
Proof.
  revert a b. induction limit as [|n IH]; intros a b.
  - reflexivity.
  - cbn. rewrite IH. reflexivity.
Qed.

(** [<] on two subreleases answers only when they are equal. *)
Lemma Subrelease_lt_equal (limit : nat) (a : Subrelease) :
  op_lt limit (PSub a) (PSub a) = Ok false.
Proof.
  unfold op_lt, dispatch_lt, dispatch, method_lt, Subrelease___lt__, Subrelease___ge__, py_eq.
  rewrite bool_decide_eq_true_2 by reflexivity. reflexivity.
Qed.

Lemma Subrelease_lt_never_answers (limit : nat) (a b : Subrelease) :
  a ≠ b → op_lt limit (PSub a) (PSub b) = Raise RecursionError.
Proof.
  intros Hab.
  unfold op_lt, dispatch_lt, dispatch, method_lt, Subrelease___lt__, Subrelease___ge__, py_eq.
  rewrite bool_decide_eq_false_2 by congruence.
  unfold Subrelease_gt, Subrelease___gt__.
  destruct limit as [|n]; [reflexivity|].
  cbn. rewrite !op_gt_Subrelease_recursion. reflexivity.
Qed.

(** C3: comparing two subreleases with [>] never gives an answer:
    [Subrelease.__gt__] hands the question [other > self] back to itself,
    whatever the types and the numbers are, until the recursion limit is
    hit; [<] goes through [>] and answers only for equal operands. *)
Theorem Subrelease_gt_never_answers (limit : nat) (a b : Subrelease) :
  op_gt limit (PSub a) (PSub b) = Raise RecursionError ∧
  op_lt limit (PSub a) (PSub b)
  = if bool_decide (a = b) then Ok false else Raise RecursionError.
Proof.
  split; [apply op_gt_Subrelease_recursion|].
  case_bool_decide as Hab.
  - subst b. apply Subrelease_lt_equal.
  - apply Subrelease_lt_never_answers, Hab.
Qed.

Example Subrelease_gt_beta_alpha :
  Subrelease_gt_spec (mkSubrelease SubreleaseType.BETA 1) (mkSubrelease SubreleaseType.ALPHA 1) = true ∧
  op_gt 1000 (PSub (mkSubrelease SubreleaseType.BETA 1)) (PSub (mkSubrelease SubreleaseType.ALPHA 1))
  = Raise RecursionError.
Proof. split; [reflexivity | apply op_gt_Subrelease_recursion]. Qed.

(** C4: comparing a subrelease with [None] raises: [Subrelease.__gt__]
    asks [None] for [is_pre], and [__lt__] goes through [__gt__]. *)
Theorem Subrelease_against_None_raises (limit : nat) (s : Subrelease) :
  op_gt limit (PSub s) PNone = Raise AttributeError ∧
  op_lt limit (PSub s) PNone = Raise AttributeError.
Proof.
  split.
  - rewrite op_gt_unfold. reflexivity.
  - reflexivity.
Qed.

Example post_against_None :
  SubreleaseType.is_pre SubreleaseType.POST = false ∧
  op_gt 1000 (PSub (mkSubrelease SubreleaseType.POST 1)) PNone = Raise AttributeError.
Proof. split; reflexivity. Qed.

(** ** Comparing version values *)

Section TupleLemmas.
Variables (op : pyval → pyval → result bool) (size_op : Z → Z → bool).

Lemma tuple_cons_eq (x : pyval) (v w : list pyval) :
  tuple_richcompare py_eq op size_op (x :: v) (x :: w)
  = tuple_richcompare py_eq op size_op v w.
Proof. cbn. unfold py_eq. rewrite bool_decide_eq_true_2; reflexivity. Qed.

Lemma tuple_cons_ne (x y : pyval) (v w : list pyval) :
  x ≠ y → tuple_richcompare py_eq op size_op (x :: v) (y :: w) = op x y.
Proof. intros H. cbn. unfold py_eq. rewrite bool_decide_eq_false_2; [reflexivity|assumption]. Qed.
End TupleLemmas.

Lemma op_gt_None_int (limit : nat) (n : Z) : op_gt limit PNone (PInt n) = Raise TypeError.
Proof. rewrite op_gt_unfold. reflexivity. Qed.

Lemma op_gt_int (limit : nat) (m n : Z) : op_gt limit (PInt m) (PInt n) = Ok (n <? m).
Proof. rewrite op_gt_unfold. reflexivity. Qed.

Lemma op_lt_int (limit : nat) (m n : Z) : op_lt limit (PInt m) (PInt n) = Ok (m <? n).
Proof. reflexivity. Qed.

(** The comparable form of a value is the value itself, when there is
    one: a field to fill ends the method with [AttributeError]. *)
Lemma _comparable_same (v v' : version) : _comparable v = Ok v' → v' = v.
Proof.
  destruct v as [[[e|] r]|[[e|] r s [d|]]|[[e|] r s [d|] [l|]]]; cbn; congruence.
Qed.

Lemma _comparable_error (v : version) (e : exn) :
  _comparable v = Raise e → e = AttributeError.
Proof.
  destruct v as [[[x|] r]|[[x|] r s [d|]]|[[x|] r s [d|] [l|]]]; cbn; congruence.
Qed.

(** With comparable forms of that kind, the second attempt of [compare]
    repeats the first, or is not made. *)
Lemma compare_with_fixed {A : Type} (compare_directly : A → A → result (option Z))
    (comparable_form : A → result A) :
  (∀ x x', comparable_form x = Ok x' → x' = x) →
  (∀ x e, comparable_form x = Raise e → e = AttributeError) →
  ∀ a b, compare_with compare_directly comparable_form a b = compare_directly a b.
Proof.
  intros Hsame Herr a b. unfold compare_with.
  destruct (compare_directly a b) as [r|e] eqn:Hdirect; [reflexivity|].
  destruct e; try reflexivity.
  destruct (comparable_form a) as [a'|ea] eqn:Ha.
  - apply Hsame in Ha. subst a'.
    destruct (comparable_form b) as [b'|eb] eqn:Hb.
    + apply Hsame in Hb. subst b'. exact Hdirect.
    + apply Herr in Hb. subst eb. reflexivity.
  - apply Herr in Ha. subst ea. reflexivity.
Qed.

Ltac compare_directly :=
  unfold compare; rewrite (compare_with_fixed _ _ _comparable_same _comparable_error).

(** C2: comparing a public version without dev number against the same
    version with a dev number raises [TypeError]: the direct comparison
    fails on [None > d], and the comparable form, which would put -1 for
    the absent dev number, cannot be made for want of [mutate]. *)
Theorem compare_absent_dev_raises (limit : nat) (e : option Z) (r : Release.t)
    (s : option Subrelease) (d : Z) :
  compare limit (VPublic (PublicVersion.mk e r s None))
                (VPublic (PublicVersion.mk e r s (Some d)))
  = Raise TypeError ∧
  PublicVersion._comparable (PublicVersion.mk e r s None) = Raise AttributeError.
Proof.
  split; [|destruct e; reflexivity].
  compare_directly.
  unfold _compare, tuple_eq, tuple_gt, tuple_lt.
  cbn [to_tuple PublicVersion.epoch PublicVersion.release PublicVersion.subrelease
       PublicVersion.dev opt_int].
  rewrite bool_decide_eq_false_2 by congruence.
  rewrite !tuple_cons_eq, !tuple_cons_ne by congruence.
  rewrite op_gt_None_int. reflexivity.
Qed.

Example compare_absent_dev_1_0 :
  compare 1000 (VPublic (PublicVersion.mk None [1; 0] None None))
               (VPublic (PublicVersion.mk None [1; 0] None (Some 3)))
  = Raise TypeError.
Proof. vm_compute. reflexivity. Qed.

(** ** The epoch in comparison and in display *)

Lemma occurs_app (c : ascii) (s1 s2 : string) :
  occurs c (s1 +:+ s2) = occurs c s1 || occurs c s2.
Proof.
  induction s1 as [|x s1 IH]; simpl; [reflexivity|].
  rewrite IH. apply orb_assoc.
Qed.

Lemma occurs_uint (d : Decimal.uint) : occurs "!" (NilEmpty.string_of_uint d) = false.
Proof. induction d; cbn; assumption || reflexivity. Qed.

Lemma occurs_str_int (n : Z) : occurs "!" (str_int n) = false.
Proof.
  unfold str_int, NilZero.string_of_int, NilZero.string_of_uint.
  destruct (Z.to_int n) as [d|d]; [|cbn]; destruct d; cbn; try reflexivity; apply occurs_uint.
Qed.

Lemma occurs_join_dot (parts : list string) :
  Forall (fun p => occurs "!" p = false) parts → occurs "!" (join "." parts) = false.
Proof.
  unfold join. induction 1 as [|p parts Hp Hparts IH]; [reflexivity|].
  cbn [String.concat]. destruct parts as [|q parts]; [assumption|].
  rewrite !occurs_app, Hp, IH. reflexivity.
Qed.

Lemma occurs_Release_str (r : Release.t) : occurs "!" (Release.__str__ r) = false.
Proof.
  apply occurs_join_dot. apply Forall_fmap, Forall_forall.
  intros n _. apply occurs_str_int.
Qed.

(** C9: comparing a final version without epoch against the same
    version with epoch 0 raises [TypeError]: the direct comparison fails
    on [None > 0], and the comparable form, which would put 0 for the
    absent epoch, cannot be made for want of [mutate].  The rendering is
    as claimed: the release alone, with no [!] and no epoch before it. *)
Theorem compare_absent_epoch_raises (limit : nat) (r : Release.t) :
  compare limit (VFinal (FinalVersion.mk None r)) (VFinal (FinalVersion.mk (Some 0) r))
  = Raise TypeError ∧
  FinalVersion._comparable (FinalVersion.mk None r) = Raise AttributeError ∧
  FinalVersion.__str__ (FinalVersion.mk None r) = Release.__str__ r ∧
  occurs "!" (FinalVersion.__str__ (FinalVersion.mk None r)) = false.
Proof.
  assert (Hstr : FinalVersion.__str__ (FinalVersion.mk None r) = Release.__str__ r)
    by reflexivity.
  split; [|split; [|split]].
  - compare_directly.
    unfold _compare, tuple_eq, tuple_gt, tuple_lt.
    cbn [to_tuple FinalVersion.epoch FinalVersion.release opt_int].
    rewrite bool_decide_eq_false_2 by congruence.
    rewrite !tuple_cons_ne by congruence.
    rewrite op_gt_None_int. reflexivity.
  - reflexivity.
  - exact Hstr.
  - rewrite Hstr. apply occurs_Release_str.
Qed.

(** ** Release.bump *)

Lemma pad_replicate (parts : list Z) (index : Z) :
  Release.pad parts index
  = (parts ++ replicate (Z.to_nat (index - Release.len parts)) 0)%list.
Proof.
  funelim (Release.pad parts index).
  - rewrite H. unfold Release.len in *. rewrite length_app. cbn [length].
    replace (Z.to_nat (index - Z.of_nat (length parts)))
      with (S (Z.to_nat (index - Z.of_nat (length parts + 1)))) by lia.
    cbn [replicate]. rewrite <- app_assoc. reflexivity.
  - replace (Z.to_nat (index - Release.len parts)) with O by lia.
    cbn. rewrite app_nil_r. reflexivity.
Qed.

Lemma position_in_range (r : Release.t) (i : nat) :
  (i < length r)%nat → Release.position r (Z.of_nat i) = Ok i.
Proof.
  intros Hi. unfold Release.position, Release.len.
  replace (Z.of_nat i <? 0) with false by (symmetry; apply Z.ltb_ge; lia).
  replace (0 <=? Z.of_nat i) with true by (symmetry; apply Z.leb_le; lia).
  replace (Z.of_nat i <? Z.of_nat (length r)) with true by (symmetry; apply Z.ltb_lt; lia).
  cbn. rewrite Nat2Z.id. reflexivity.
Qed.

(** C5, as the code has it: within the sequence, [bump] adds the step at
    the position, whatever the sign of the result; beyond its end, it
    pads with zeros and appends a positive step, and refuses any other. *)
Theorem Release_bump_cases (r : Release.t) (i : nat) (step : Z) :
  (∀ x, r !! i = Some x →
        Release.bump r (Z.of_nat i) step = Ok (<[i := x + step]> r)) ∧
  ((length r ≤ i)%nat → 0 < step →
        Release.bump r (Z.of_nat i) step
        = Ok (r ++ replicate (i - length r) 0 ++ [step])%list) ∧
  ((length r ≤ i)%nat → step <= 0 →
        Release.bump r (Z.of_nat i) step = Raise ValueError).
Proof.
  unfold Release.bump, Release.len. split; [|split].
  - intros x Hx. pose proof (lookup_lt_Some _ _ _ Hx) as Hi.
    replace (Z.of_nat i <? Z.of_nat (length r)) with true by (symmetry; apply Z.ltb_lt; lia).
    unfold Release.getitem, Release.mutate.
    rewrite position_in_range by assumption.
    cbn [mbind result_bind]. rewrite Hx. reflexivity.
  - intros Hi Hstep.
    replace (Z.of_nat i <? Z.of_nat (length r)) with false by (symmetry; apply Z.ltb_ge; lia).
    replace (0 <? step) with true by (symmetry; apply Z.ltb_lt; lia).
    rewrite pad_replicate. unfold Release.len.
    replace (Z.to_nat (Z.of_nat i - Z.of_nat (length r))) with (i - length r)%nat by lia.
    rewrite <- app_assoc. reflexivity.
  - intros Hi Hstep.
    replace (Z.of_nat i <? Z.of_nat (length r)) with false by (symmetry; apply Z.ltb_ge; lia).
    replace (0 <? step) with false by (symmetry; apply Z.ltb_ge; lia).
    reflexivity.
Qed.

Lemma Release_bump_cases_witness :
  Release.bump [1; 2; 3] 1 (-2) = Ok [1; 0; 3] ∧
  Release.bump [1] 3 2 = Ok [1; 0; 0; 2] ∧
  Release.bump [1] 3 0 = Raise ValueError.
Proof.
  split; [|split].
  - apply (proj1 (Release_bump_cases [1; 2; 3] 1 (-2)) 2). reflexivity.
  - apply (proj1 (proj2 (Release_bump_cases [1] 3 2))); [simpl; lia | lia].
  - apply (proj2 (proj2 (Release_bump_cases [1] 3 0))); [simpl; lia | lia].
Defined.

(** C5, as the claim has it, fails: a negative step can take a component
    below zero, and [bump] returns the release all the same. *)
Lemma Release_bump_below_zero :
  Release.bump [0] 0 (-1) = Ok [-1] ∧ Release.validate [-1] = Raise ValueError.
Proof. split; reflexivity. Qed.

(** An index below zero counts from the end, as Python's indexing does. *)
Lemma Release_bump_negative_index :
  Release.bump [1; 2] (-1) 5 = Ok [1; 7] ∧ Release.bump [1; 2] (-3) 5 = Raise IndexError.
Proof. split; reflexivity. Qed.

(** ** Projection and validation *)

(** C10: [public] keeps the epoch, the release and the subrelease, and
    loses the dev number together with the local label: the fourth
    argument of [PublicVersion] is never passed. *)
Theorem Version_public_drops_dev (v : Version.t) :
  PublicVersion.epoch (Version.public v) = Version.epoch v ∧
  PublicVersion.release (Version.public v) = Version.release v ∧
  PublicVersion.subrelease (Version.public v) = Version.subrelease v ∧
  PublicVersion.dev (Version.public v) = None.
Proof. repeat split. Qed.

Example Version_public_dev_3 :
  PublicVersion.dev (Version.public (Version.mk None [1; 0] None (Some 3) None))
  ≠ Version.dev (Version.mk None [1; 0] None (Some 3) None).
Proof. discriminate. Qed.

Lemma validate_absent_subrelease_raises (v : Version.t) :
  Version.subrelease v = None → ∃ e, Version.validate v = Raise e.
Proof.
  intros Hs. unfold Version.validate, PublicVersion.validate.
  cbn [Version.public PublicVersion.subrelease PublicVersion.final].
  rewrite Hs.
  destruct (FinalVersion.validate _) as [[]|e]; cbn; eauto.
Qed.

(** C6: a version without subrelease never passes [validate], though
    the subrelease is optional: the method is called on the field
    itself. *)
Theorem validate_rejects_absent_subrelease (v : Version.t) :
  Version.subrelease v = None → is_ok (Version.validate v) = false.
Proof.
  intros Hs. destruct (validate_absent_subrelease_raises v Hs) as [e ->]. reflexivity.
Qed.

Lemma validate_rejects_absent_subrelease_witness :
  invariants_hold (Version.mk None [1; 0] None None None) = true ∧
  is_ok (Version.validate (Version.mk None [1; 0] None None None)) = false.
Proof.
  split; [vm_compute; reflexivity|].
  apply (validate_rejects_absent_subrelease (Version.mk None [1; 0] None None None)).
  reflexivity.
Defined.

Example validate_absent_subrelease_error :
  Version.validate (Version.mk None [1; 0] None None None) = Raise AttributeError.
Proof. reflexivity. Qed.

(** With the module's own [validate], which lets [None] pass, the same
    field is accepted. *)
Example validate_helper_accepts_None :
  validate Subrelease_validate None = Ok tt.
Proof. reflexivity. Qed.

(** The dev number does not reach the check of it ([public] has lost it),
    and an empty local label fails on its first character. *)
Example validate_accepts_negative_dev :
  let v := Version.mk None [1; 0] (Some (mkSubrelease SubreleaseType.ALPHA 1)) (Some (-4)) None in
  invariants_hold v = false ∧ Version.validate v = Ok tt.
Proof. split; vm_compute; reflexivity. Qed.

Example validate_empty_local :
  Version.validate
    (Version.mk None [1; 0] (Some (mkSubrelease SubreleaseType.ALPHA 1)) None (Some ""))
  = Raise IndexError.
Proof. vm_compute. reflexivity. Qed.

(** ** Parsing *)

(** C1: [parse] never returns a version.  It reads the subrelease from
    the group [subrelease_type], which the pattern does not have (its
    groups are [epoch], [release], [sub_type], [sub_number], [dev] and
    [local]), so the subrelease is always absent, and [validate] then
    rejects the value. *)
Theorem parse_never_returns
    (version_re_match : string → option (gmap string (option string))) (s : string) :
  (∀ g, version_re_match s = Some g → g !! "subrelease_type" = None) →
  is_ok (Version.parse version_re_match s) = false.
Proof.
  intros Hgroups. unfold Version.parse.
  destruct (version_re_match s) as [g|] eqn:Hmatch; [|reflexivity].
  specialize (Hgroups g eq_refl).
  unfold Version.parse_groups.
  destruct (Version.int_if (Version.get g "epoch")) as [epoch|e]; [|reflexivity].
  cbn [mbind result_bind].
  destruct (Version.get g "release") as [rel|]; [|reflexivity].
  destruct (traverse int_of_str (split_dot rel)) as [release|e]; [|reflexivity].
  cbn [mbind result_bind].
  assert (Hget : Version.get g "subrelease_type" = None)
    by (unfold Version.get; rewrite Hgroups; reflexivity).
  rewrite Hget.
  cbn [Version.truthy mbind result_bind].
  destruct (Version.int_if (Version.get g "dev")) as [dev|e]; [|reflexivity].
  cbn [mbind result_bind].
  destruct (validate_absent_subrelease_raises
              (Version.mk epoch release None dev (Version.get g "local")) eq_refl)
    as [e ->].
  reflexivity.
Qed.

Lemma parse_never_returns_witness :
  (∀ g, Some groups_1_0_0a1 = Some g → g !! "subrelease_type" = None) ∧
  is_ok (Version.parse (fun _ => Some groups_1_0_0a1) "1.0.0a1") = false.
Proof.
  assert (H : ∀ g, Some groups_1_0_0a1 = Some g → g !! "subrelease_type" = None).
  { intros g [= <-]. vm_compute. reflexivity. }
  split; [exact H|].
  apply (parse_never_returns (fun _ => Some groups_1_0_0a1) "1.0.0a1"). exact H.
Defined.

(** The pattern itself leaves its outermost group open (the parenthesis
    after the dev group closes the dev group), which [re.compile]
    refuses. *)
Example VERSION_PATTERN_open_group : open_groups VERSION_PATTERN = 1.
Proof. vm_compute. reflexivity. Qed.

Example parse_1_0_0a1 :
  Version.parse (fun _ => Some groups_1_0_0a1) "1.0.0a1" = Raise AttributeError.
Proof. vm_compute. reflexivity. Qed.

(** ** compare: directly, then once on the comparable forms *)

Lemma Release_richcompare_total (op : Z → Z → bool) (size_op : Z → Z → bool)
    (v w : list Z) :
  ∃ b, tuple_richcompare Z.eqb (fun x y => Ok (op x y)) size_op v w = Ok b.
Proof.
  revert w. induction v as [|x v IH]; intros [|y w]; cbn; eauto.
  destruct (x =? y); eauto.
Qed.

(** An operator raises something other than [TypeError] only with a
    subrelease among its operands. *)
Lemma builtin_gt_benign (x y : pyval) (e : exn) :
  builtin___gt__ x y = Raise e → is_sub x ∨ is_sub y.
Proof.
  destruct x as [|m|s|r|s], y as [|n|t|q|t]; cbn; try discriminate; auto.
  destruct (Release_richcompare_total (fun x y => y <? x) (fun m n => n <? m) r q) as [b Hb].
  unfold Z.t in *. rewrite Hb. discriminate.
Qed.

Lemma builtin_lt_benign (x y : pyval) (e : exn) :
  builtin___lt__ x y = Raise e → is_sub x ∨ is_sub y.
Proof.
  destruct x as [|m|s|r|s], y as [|n|t|q|t]; cbn; try discriminate; auto.
  destruct (Release_richcompare_total (fun x y => x <? y) (fun m n => m <? n) r q) as [b Hb].
  unfold Z.t in *. rewrite Hb. discriminate.
Qed.

Lemma op_gt_error (limit : nat) (x y : pyval) (e : exn) :
  op_gt limit x y = Raise e → e ≠ TypeError → is_sub x ∨ is_sub y.
Proof.
  rewrite op_gt_unfold.
  destruct x as [|m|s|r|s], y as [|n|t|q|t]; cbn; auto; try congruence.
  destruct (Release_richcompare_total (fun x y => y <? x) (fun m n => n <? m) r q) as [b Hb].
  unfold Z.t in *. rewrite Hb. discriminate.
Qed.

Lemma op_lt_error (limit : nat) (x y : pyval) (e : exn) :
  op_lt limit x y = Raise e → e ≠ TypeError → is_sub x ∨ is_sub y.
Proof.
  unfold op_lt.
  destruct x as [|m|s|r|s], y as [|n|t|q|t]; cbn; auto; try congruence.
  destruct (Release_richcompare_total (fun x y => x <? y) (fun m n => m <? n) r q) as [b Hb].
  unfold Z.t in *. rewrite Hb. discriminate.
Qed.

Lemma opt_int_inj (a b : option Z) : opt_int a = opt_int b → a = b.
Proof. destruct a, b; cbn; congruence. Qed.


(** What [compare] raises is the error of the direct comparison, except
    that nothing but [TypeError] is followed by a second attempt. *)
Example compare_error_kinds :
  let a := VPublic (PublicVersion.mk None [1; 0]
                      (Some (mkSubrelease SubreleaseType.ALPHA 1)) None) in
  let b := VPublic (PublicVersion.mk None [1; 0] None None) in
  compare 1000 a b = Raise AttributeError ∧ compare_spec 1000 a b = Raise TypeError.
Proof. split; vm_compute; reflexivity. Qed.

(** Operands without a comparable form: the [TypeError] of the direct
    comparison is raised again. *)
Lemma compare_with_no_comparable_form :
  compare_with (fun _ _ : unit => Raise TypeError) (fun _ => Raise AttributeError) tt tt
  = Raise TypeError.
Proof. reflexivity. Qed.

(** [Comparable._compare] is inherited by none of the version classes;
    whatever the operands, its [finally] clause raises. *)
Lemma Comparable__compare_raises (limit : nat) (a b : version) :
  Comparable__compare (_compare limit) _comparable a b = Raise TypeError.
Proof. reflexivity. Qed.

(** * Further properties of the code *)

(** ** SubreleaseType: members and values *)

(** X1: [SubreleaseType(value)] gives back the member with that value,
    and only the value of a member is accepted. *)
Theorem SubreleaseType_lookup_value (m : SubreleaseType.t) (obj : pyval) :
  SubreleaseTypeOrder.lookup (of_member m) = Ok m ∧
  (SubreleaseTypeOrder.lookup obj = Ok m → obj = PStr (SubreleaseType.value m)).
Proof.
  split; [destruct m; reflexivity|].
  destruct obj as [|n|s|r|s]; try discriminate.
  unfold SubreleaseTypeOrder.lookup, SubreleaseType.members.
  cbn [List.find SubreleaseType.value].
  destruct (String.eqb_spec "a" s) as [<-|_]; [intros [= <-]; reflexivity|].
  destruct (String.eqb_spec "b" s) as [<-|_]; [intros [= <-]; reflexivity|].
  destruct (String.eqb_spec "rc" s) as [<-|_]; [intros [= <-]; reflexivity|].
  destruct (String.eqb_spec "post" s) as [<-|_]; [intros [= <-]; reflexivity|].
  discriminate.
Qed.

(** X2: the pre-release types are the ones that compare below
    [POST]. *)
Theorem is_pre_below_post (m : SubreleaseType.t) :
  SubreleaseType.is_pre m = true
  ↔ SubreleaseTypeOrder.__lt__ m (of_member SubreleaseType.POST) = Ok true.
Proof. destruct m; vm_compute; split; congruence. Qed.

(** ** Release: validation, indexing, bumping *)

Lemma forallb_is_pos_int (r : list Z) :
  forallb is_pos_int r = true ↔ Forall (fun x => 0 <= x) r.
Proof.
  unfold is_pos_int. induction r as [|x r IH]; cbn.
  - split; [constructor | reflexivity].
  - rewrite andb_true_iff, IH, Z.leb_le, Forall_cons. reflexivity.
Qed.

Lemma Release_validate_intro (r : Release.t) :
  r ≠ [] → Forall (fun x => 0 <= x) r → Release.validate r = Ok tt.
Proof.
  intros Hne Hall. unfold Release.validate, Release.len.
  destruct r as [|x r]; [contradiction|].
  replace (Z.of_nat (length (x :: r)) <? 1) with false
    by (symmetry; apply Z.ltb_ge; cbn [length]; lia).
  apply forallb_is_pos_int in Hall. rewrite Hall. reflexivity.
Qed.

Lemma Release_validate_elim (r : Release.t) :
  Release.validate r = Ok tt → r ≠ [] ∧ Forall (fun x => 0 <= x) r.
Proof.
  unfold Release.validate, Release.len.
  destruct r as [|x r]; [cbn; discriminate|].
  replace (Z.of_nat (length (x :: r)) <? 1) with false
    by (symmetry; apply Z.ltb_ge; cbn [length]; lia).
  destruct (forallb is_pos_int (x :: r)) eqn:Hall; [|discriminate].
  intros _. split; [discriminate | apply forallb_is_pos_int, Hall].
Qed.

(** X3: [Release.validate] accepts exactly the non-empty releases whose
    parts are all at least 0, and raises [ValueError] on the others. *)
Theorem Release_validate_iff (r : Release.t) :
  (Release.validate r = Ok tt ↔ r ≠ [] ∧ Forall (fun x => 0 <= x) r) ∧
  (Release.validate r ≠ Ok tt → Release.validate r = Raise ValueError).
Proof.
  split.
  - split; [apply Release_validate_elim | intros [? ?]; apply Release_validate_intro; assumption].
  - unfold Release.validate.
    destruct (Release.len r <? 1); [reflexivity|].
    destruct (forallb is_pos_int r); [congruence | reflexivity].
Qed.

Lemma position_spec (r : Release.t) (k : Z) :
  Release.position r k
  = if bool_decide (- Release.len r <= k < Release.len r)
    then Ok (Z.to_nat (k mod Release.len r)) else Raise IndexError.
Proof.
  unfold Release.position. set (n := Release.len r).
  assert (0 <= n) by (unfold n, Release.len; lia).
  destruct (Z.ltb_spec k 0) as [Hk|Hk].
  - destruct (Z.leb_spec 0 (k + n)) as [H1|H1]; cbn.
    + destruct (Z.ltb_spec (k + n) n) as [H2|H2]; [|lia].
      rewrite bool_decide_eq_true_2 by lia.
      replace (k mod n) with (k + n)
        by (apply Z.mod_unique with (q := -1); lia).
      reflexivity.
    + rewrite bool_decide_eq_false_2 by lia. reflexivity.
  - destruct (Z.leb_spec 0 k) as [H1|H1]; [|lia]. cbn.
    destruct (Z.ltb_spec k n) as [H2|H2].
    + rewrite bool_decide_eq_true_2 by lia.
      rewrite Z.mod_small by lia. reflexivity.
    + rewrite bool_decide_eq_false_2 by lia. reflexivity.
Qed.

(** X4: [Release.mutate] writes at the index, counted from the end when
    it is negative, and raises [IndexError] outside of the release: it
    never extends it. *)
Theorem Release_mutate_index (r : Release.t) (key value : Z) :
  Release.mutate r key value
  = if bool_decide (- Release.len r <= key < Release.len r)
    then Ok (<[Z.to_nat (key mod Release.len r) := value]> r)
    else Raise IndexError.
Proof.
  unfold Release.mutate. rewrite position_spec.
  case_bool_decide; reflexivity.
Qed.

(** X5: what [Release.mutate] wrote is what indexing reads back at the
    same index, and the length is unchanged. *)
Theorem Release_mutate_getitem (r r' : Release.t) (key value : Z) :
  Release.mutate r key value = Ok r' →
  Release.getitem r' key = Ok value ∧ length r' = length r.
Proof.
  unfold Release.mutate, Release.getitem. rewrite !position_spec.
  unfold Release.t in *.
  case_bool_decide as Hk; [|discriminate]. cbn. intros [= <-].
  assert (Hlen : Release.len (<[Z.to_nat (key mod Release.len r) := value]> r)
                 = Release.len r)
    by (unfold Release.len; rewrite length_insert; reflexivity).
  rewrite Hlen, bool_decide_eq_true_2 by exact Hk. cbn.
  rewrite list_lookup_insert_eq.
  - split; [reflexivity | apply length_insert].
  - unfold Release.len in *.
    pose proof (Z.mod_pos_bound key (Z.of_nat (length r))). lia.
Qed.

Lemma Release_mutate_getitem_witness :
  Release.mutate [1; 2; 3] (-1) 9 = Ok [1; 2; 9] ∧
  Release.getitem [1; 2; 9] (-1) = Ok 9 ∧ length [1; 2; 9] = length [1; 2; 3].
Proof.
  split; [reflexivity|].
  apply (Release_mutate_getitem [1; 2; 3] [1; 2; 9] (-1) 9). reflexivity.
Defined.

Lemma bump_in_range (r : list Z) (i : nat) (x step : Z) :
  r !! i = Some x → Release.bump r (Z.of_nat i) step = Ok (<[i := x + step]> r).
Proof.
  intros Hx. pose proof (lookup_lt_Some _ _ _ Hx) as Hi.
  unfold Release.bump, Release.len, Release.getitem, Release.mutate.
  replace (Z.of_nat i <? Z.of_nat (length r)) with true by (symmetry; apply Z.ltb_lt; lia).
  rewrite position_in_range by assumption.
  cbn [mbind result_bind]. unfold Release.t. rewrite Hx. reflexivity.
Qed.

Lemma bump_beyond (r : list Z) (i : nat) (step : Z) :
  (length r ≤ i)%nat → 0 < step →
  Release.bump r (Z.of_nat i) step
  = Ok (r ++ replicate (i - length r) 0 ++ [step])%list.
Proof.
  intros Hi Hstep. unfold Release.bump, Release.len.
  replace (Z.of_nat i <? Z.of_nat (length r)) with false by (symmetry; apply Z.ltb_ge; lia).
  replace (0 <? step) with true by (symmetry; apply Z.ltb_lt; lia).
  rewrite pad_replicate. unfold Release.len.
  replace (Z.to_nat (Z.of_nat i - Z.of_nat (length r))) with (i - length r)%nat by lia.
  rewrite <- app_assoc. reflexivity.
Qed.

(** X6: an index below zero is taken from the end, as long as it stays
    within the release: [bump] at [index] is [bump] at [index + len]. *)
Theorem Release_bump_from_end (r : Release.t) (index step : Z) :
  - Release.len r <= index < 0 →
  Release.bump r index step = Release.bump r (index + Release.len r) step.
Proof.
  intros Hi. unfold Release.bump, Release.getitem, Release.mutate.
  replace (index <? Release.len r) with true by (symmetry; apply Z.ltb_lt; lia).
  replace (index + Release.len r <? Release.len r) with true
    by (symmetry; apply Z.ltb_lt; lia).
  rewrite !position_spec.
  rewrite !bool_decide_eq_true_2 by lia.
  replace ((index + Release.len r) mod Release.len r) with (index mod Release.len r)
    by (rewrite <- (Z_mod_plus_full index 1 (Release.len r)); f_equal; lia).
  reflexivity.
Qed.

Lemma Release_bump_from_end_witness :
  - Release.len [1; 2; 3] <= -1 < 0 ∧
  Release.bump [1; 2; 3] (-1) 4 = Release.bump [1; 2; 3] (-1 + Release.len [1; 2; 3]) 4.
Proof.
  assert (H : - Release.len [1; 2; 3] <= -1 < 0) by (unfold Release.len; simpl; lia).
  split; [exact H | apply (Release_bump_from_end [1; 2; 3] (-1) 4 H)].
Defined.

(** X7: below minus the length, [bump] raises [IndexError], whatever the
    step. *)
Theorem Release_bump_before_start (r : Release.t) (index step : Z) :
  index < - Release.len r → Release.bump r index step = Raise IndexError.
Proof.
  intros Hi. unfold Release.bump, Release.getitem.
  assert (0 <= Release.len r) by (unfold Release.len; lia).
  replace (index <? Release.len r) with true by (symmetry; apply Z.ltb_lt; lia).
  rewrite position_spec, bool_decide_eq_false_2 by lia. reflexivity.
Qed.

Lemma Release_bump_before_start_witness :
  -3 < - Release.len [1; 2] ∧ Release.bump [1; 2] (-3) 1 = Raise IndexError.
Proof.
  assert (H : -3 < - Release.len [1; 2]) by (unfold Release.len; simpl; lia).
  split; [exact H | apply (Release_bump_before_start [1; 2] (-3) 1 H)].
Defined.

(** X8: two bumps of one existing part add up; in particular a bump by
    [step] followed by one by [- step] gives the release back. *)
Theorem Release_bump_twice (r : Release.t) (i : nat) (step1 step2 : Z) :
  (i < length r)%nat →
  (r' ← Release.bump r (Z.of_nat i) step1; Release.bump r' (Z.of_nat i) step2)
  = Release.bump r (Z.of_nat i) (step1 + step2) ∧
  (r' ← Release.bump r (Z.of_nat i) step1; Release.bump r' (Z.of_nat i) (- step1))
  = Ok r.
Proof.
  intros Hi. unfold Release.t in *.
  destruct (lookup_lt_is_Some_2 r i Hi) as [x Hx].
  assert (Hx' : ∀ s, <[i := x + s]> r !! i = Some (x + s))
    by (intros s; apply list_lookup_insert_eq, Hi).
  rewrite !(bump_in_range r i x) by exact Hx.
  cbn [mbind result_bind].
  rewrite !(bump_in_range _ i (x + step1)) by apply Hx'.
  unfold Release.t in *. rewrite !list_insert_insert_eq.
  split.
  - rewrite Z.add_assoc. reflexivity.
  - replace (x + step1 + - step1) with x by lia.
    rewrite list_insert_id by exact Hx. reflexivity.
Qed.

Lemma Release_bump_twice_witness :
  (1 < length [1; 2; 3])%nat ∧
  (r' ← Release.bump [1; 2; 3] 1 5; Release.bump r' 1 (-5)) = Ok [1; 2; 3].
Proof.
  assert (H : (1 < length [1; 2; 3])%nat) by (cbn; lia).
  split; [exact H | apply (Release_bump_twice [1; 2; 3] 1 5 0 H)].
Defined.

(** X9: a bump by a positive step of a valid release is valid again,
    at whatever position. *)
Theorem Release_bump_keeps_valid (r : Release.t) (i : nat) (step : Z) :
  Release.validate r = Ok tt → 0 < step →
  ∃ r', Release.bump r (Z.of_nat i) step = Ok r' ∧ Release.validate r' = Ok tt.
Proof.
  intros Hvalid Hstep. unfold Release.t in *.
  destruct (Release_validate_elim r Hvalid) as [Hne Hall].
  destruct (r !! i) as [x|] eqn:Hx.
  - exists (<[i := x + step]> r). split; [apply bump_in_range, Hx|].
    apply Release_validate_intro.
    + intros Hnil. apply (f_equal length) in Hnil.
      rewrite length_insert in Hnil. destruct r; [contradiction | discriminate].
    + apply Forall_insert; [exact Hall|].
      pose proof (Forall_lookup_1 _ _ _ _ Hall Hx) as H0. cbn in H0. lia.
  - apply lookup_ge_None in Hx.
    exists (r ++ replicate (i - length r) 0 ++ [step])%list.
    split; [apply bump_beyond; assumption|].
    apply Release_validate_intro.
    + destruct r; [contradiction | discriminate].
    + repeat apply Forall_app_2; [exact Hall | | ].
      * apply Forall_replicate. lia.
      * constructor; [lia | constructor].
Qed.

Lemma Release_bump_keeps_valid_witness :
  Release.validate [1; 2] = Ok tt ∧ 0 < 1 ∧
  ∃ r', Release.bump [1; 2] 4 1 = Ok r' ∧ Release.validate r' = Ok tt.
Proof.
  split; [reflexivity|]. split; [lia|].
  apply (Release_bump_keeps_valid [1; 2] 4 1); [reflexivity | lia].
Defined.

(** X10: [triple] is always the three parts major, minor, patch, with 0
    for the ones the release does not have; together with [subpatch] it
    is the release, padded with zeros to three parts. *)
Theorem Release_triple_parts (r : Release.t) :
  Release.triple r
  = [default 0 (r !! 0%nat); default 0 (Release.minor r); default 0 (Release.patch r)] ∧
  (Release.triple r ++ Release.subpatch r
   = r ++ replicate (3 - length r) 0)%list.
Proof.
  unfold Release.triple, Release.minor, Release.patch, Release.subpatch.
  rewrite pad_replicate.
  destruct r as [|a [|b [|c [|d r]]]]; try (split; reflexivity).
  unfold Release.len. cbn [length take].
  replace (1 <? Z.of_nat (S (S (S (S (length r)))))) with true
    by (symmetry; apply Z.ltb_lt; lia).
  replace (2 <? Z.of_nat (S (S (S (S (length r)))))) with true
    by (symmetry; apply Z.ltb_lt; lia).
  replace (Z.of_nat (S (S (S (S (length r))))) <? 4) with false
    by (symmetry; apply Z.ltb_ge; lia).
  split; cbn; [reflexivity | rewrite app_nil_r; reflexivity].
Qed.

(** ** Rendering and reading back *)

Lemma int_of_str_str_int (n : Z) : int_of_str (str_int n) = Ok n.
Proof.
  unfold int_of_str, str_int.
  assert (Hnorm : Z.to_int n = Decimal.norm (Z.to_int n))
    by (rewrite <- DecimalZ.to_of, DecimalZ.of_to; reflexivity).
  rewrite NilZero.isi.
  - rewrite DecimalZ.of_to. reflexivity.
  - rewrite Hnorm. destruct (Z.to_int n) as [d|d]; cbn; unfold Decimal.unorm;
      destruct (Decimal.nzhead d); discriminate.
  - rewrite Hnorm. destruct (Z.to_int n) as [d|d]; cbn; unfold Decimal.unorm;
      destruct (Decimal.nzhead d); discriminate.
Qed.

Lemma no_dot_uint (d : Decimal.uint) : occurs "." (NilEmpty.string_of_uint d) = false.
Proof. induction d; cbn; assumption || reflexivity. Qed.

Lemma no_dot_str_int (n : Z) : occurs "." (str_int n) = false.
Proof.
  unfold str_int, NilZero.string_of_int, NilZero.string_of_uint.
  destruct (Z.to_int n) as [d|d]; [|cbn]; destruct d; cbn; try reflexivity; apply no_dot_uint.
Qed.

Lemma split_dot_go_whole (p cur : string) :
  occurs "." p = false → split_dot_go cur p = [String.rev_app cur p].
Proof.
  revert cur. induction p as [|c p IH]; intros cur; [reflexivity|].
  cbn. destruct (Ascii.eqb c "."); [discriminate|]. cbn. intros Hp. apply IH, Hp.
Qed.

Lemma split_dot_go_part (p cur s : string) :
  occurs "." p = false →
  split_dot_go cur (p +:+ String "." s) = String.rev_app cur p :: split_dot_go "" s.
Proof.
  revert cur. induction p as [|c p IH]; intros cur; [reflexivity|].
  simpl. destruct (Ascii.eqb c "."); [discriminate|]. simpl. intros Hp. apply IH, Hp.
Qed.

Lemma split_dot_join (p : string) (parts : list string) :
  Forall (fun q => occurs "." q = false) (p :: parts) →
  split_dot (join "." (p :: parts)) = p :: parts.
Proof.
  unfold split_dot, join. revert p.
  induction parts as [|q parts IH]; intros p Hall.
  - apply (split_dot_go_whole p ""), (Forall_inv Hall).
  - change (String.concat "." (p :: q :: parts))
      with (p +:+ String "." (String.concat "." (q :: parts))).
    rewrite split_dot_go_part by apply (Forall_inv Hall).
    cbn [String.rev_app]. f_equal. apply IH, (Forall_inv_tail Hall).
Qed.

Lemma traverse_int_of_str (r : list Z) : traverse int_of_str (str_int <$> r) = Ok r.
Proof.
  induction r as [|x r IH]; [reflexivity|].
  cbn. rewrite int_of_str_str_int. cbn. rewrite IH. reflexivity.
Qed.

(** X11: reading a rendered release back, the way [parse] reads the
    release group (split at the periods, [int] of each part), gives the
    release, provided it is not empty; the empty release renders as the
    empty string, which does not read back. *)
Theorem Release_str_roundtrip (r : Release.t) :
  r ≠ [] → traverse int_of_str (split_dot (Release.__str__ r)) = Ok r.
Proof.
  intros Hne. destruct r as [|x r]; [contradiction|].
  unfold Release.__str__.
  change (str_int <$> x :: r) with (str_int x :: (str_int <$> r)).
  rewrite split_dot_join.
  - apply (traverse_int_of_str (x :: r)).
  - constructor; [apply no_dot_str_int|].
    apply Forall_fmap, Forall_forall. intros n _. apply no_dot_str_int.
Qed.

Lemma Release_str_roundtrip_witness :
  [1; 0; 12] ≠ [] ∧
  traverse int_of_str (split_dot (Release.__str__ [1; 0; 12])) = Ok [1; 0; 12].
Proof.
  assert (H : [1; 0; 12] ≠ ([] : list Z)) by discriminate.
  split; [exact H | apply (Release_str_roundtrip [1; 0; 12] H)].
Defined.

Example Release_str_empty :
  traverse int_of_str (split_dot (Release.__str__ [])) = Raise ValueError.
Proof. reflexivity. Qed.

(** X12: the rendering of a final version has a [!] exactly when the
    version has an epoch. *)
Theorem FinalVersion_str_epoch (f : FinalVersion.t) :
  occurs "!" (FinalVersion.__str__ f) = bool_decide (FinalVersion.epoch f ≠ None).
Proof.
  destruct f as [[e|] r]; unfold FinalVersion.__str__; cbn -[str_int].
  - rewrite occurs_app. cbn [occurs]. rewrite occurs_str_int. reflexivity.
  - apply occurs_Release_str.
Qed.

(** X13: the dev number is never rendered: changing it changes neither
    the string of a public version nor that of a version. *)
Theorem str_ignores_dev (p : PublicVersion.t) (w : Version.t) (d : option Z) :
  PublicVersion.__str__ (PublicVersion.mutate p (PublicVersion.set_dev d))
  = PublicVersion.__str__ p ∧
  Version.__str__ (Version.mutate w (Version.set_dev d)) = Version.__str__ w.
Proof. destruct p, w. split; reflexivity. Qed.

(** ** What validate accepts *)

Lemma Release_validate_bool (r : Release.t) :
  Release.validate r
  = if negb (bool_decide (r = [])) && forallb (fun n => 0 <=? n) r
    then Ok tt else Raise ValueError.
Proof.
  destruct r as [|x r]; [reflexivity|].
  unfold Release.validate, Release.len.
  replace (Z.of_nat (length (x :: r)) <? 1) with false
    by (symmetry; apply Z.ltb_ge; cbn [length]; lia).
  rewrite bool_decide_eq_false_2 by discriminate. reflexivity.
Qed.

Lemma last_cons_default {A : Type} (x : A) (l : list A) (d d' : A) :
  List.last (x :: l) d = List.last (x :: l) d'.
Proof.
  revert x. induction l as [|y l IH]; intros x; [reflexivity|].
  change (List.last (y :: l) d = List.last (y :: l) d'). apply IH.
Qed.

Lemma ascii_eqb_decide (a b : ascii) : Ascii.eqb a b = bool_decide (a = b).
Proof.
  destruct (Ascii.eqb_spec a b) as [H|H].
  - rewrite bool_decide_eq_true_2; [reflexivity | exact H].
  - rewrite bool_decide_eq_false_2; [reflexivity | exact H].
Qed.

(** The check of the local label in [Version.validate], on its own. *)
Lemma Version_validate_local (e : option Z) (r : Release.t) (s : option Subrelease)
    (d : option Z) (l : string) :
  PublicVersion.validate (Version.public (Version.mk e r s d (Some l))) = Ok tt →
  Version.validate (Version.mk e r s d (Some l))
  = if local_label_ok l && negb (String.eqb l "") then Ok tt
    else if forallb (fun c => bool_decide (c ∈ local_chars)) (list_ascii_of_string l)
            && String.eqb l ""
         then Raise IndexError else Raise ValueError.
Proof.
  intros Hpub. unfold Version.validate. rewrite Hpub.
  cbn [mbind result_bind Version.local]. unfold local_label_ok.
  destruct l as [|c l]; [reflexivity|].
  cbn [list_ascii_of_string head String.eqb].
  rewrite (last_cons_default c (list_ascii_of_string l) "a"%char c).
  rewrite !ascii_eqb_decide.
  destruct (forallb _ (c :: list_ascii_of_string l)); cbn [negb andb]; [|reflexivity].
  destruct (decide (c = "."%char)) as [->|Hc].
  - rewrite (bool_decide_eq_true_2 ("."%char = "."%char)) by reflexivity.
    rewrite (bool_decide_eq_true_2 (Some "."%char = Some "."%char)) by reflexivity.
    reflexivity.
  - rewrite (bool_decide_eq_false_2 (c = "."%char)) by exact Hc.
    rewrite (bool_decide_eq_false_2 (Some c = Some "."%char)) by congruence.
    cbn [negb andb orb].
    destruct (bool_decide (List.last (c :: list_ascii_of_string l) c = "."%char));
      reflexivity.
Qed.

Lemma PublicVersion_validate_bool (p : PublicVersion.t) :
  PublicVersion.validate p = Ok tt
  ↔ invariants_hold (Version.mk (PublicVersion.epoch p) (PublicVersion.release p)
                       (PublicVersion.subrelease p) (PublicVersion.dev p) None) = true
    ∧ PublicVersion.subrelease p ≠ None.
Proof.
  destruct p as [e r s d].
  unfold PublicVersion.validate, FinalVersion.validate, invariants_hold, Subrelease_validate,
    is_pos_int.
  cbn [PublicVersion.final PublicVersion.epoch PublicVersion.release PublicVersion.subrelease
       PublicVersion.dev FinalVersion.epoch FinalVersion.release Version.epoch Version.release
       Version.subrelease Version.dev Version.local from_option].
  rewrite Release_validate_bool, andb_true_r.
  destruct (negb (bool_decide (r = []))), (forallb (fun n => 0 <=? n) r);
    destruct e as [e|]; cbn; try destruct (0 <=? e); cbn;
    destruct s as [s|]; cbn; try destruct (0 <=? sub_number s); cbn;
    destruct d as [d|]; cbn; try destruct (0 <=? d); cbn;
    split; try discriminate; try (intros [? ?]; congruence); try (split; congruence).
Qed.

(** X14: [PublicVersion.validate] accepts exactly the values that have a
    subrelease and satisfy the invariants: a release that is not empty,
    and no negative release part, epoch, subrelease number or dev
    number. *)
Theorem PublicVersion_validate_iff (p : PublicVersion.t) :
  PublicVersion.validate p = Ok tt
  ↔ PublicVersion.release p ≠ [] ∧
    Forall (fun n => 0 <= n) (PublicVersion.release p) ∧
    (∀ e, PublicVersion.epoch p = Some e → 0 <= e) ∧
    (∃ s, PublicVersion.subrelease p = Some s ∧ 0 <= sub_number s) ∧
    (∀ d, PublicVersion.dev p = Some d → 0 <= d).
Proof.
  rewrite PublicVersion_validate_bool. destruct p as [e r s d].
  unfold invariants_hold.
  cbn [PublicVersion.epoch PublicVersion.release PublicVersion.subrelease PublicVersion.dev
       Version.epoch Version.release Version.subrelease Version.dev Version.local from_option].
  rewrite !andb_true_iff, negb_true_iff, bool_decide_eq_false.
  change (forallb (fun n => 0 <=? n) r) with (forallb is_pos_int r).
  rewrite forallb_is_pos_int.
  split.
  - intros [[[[[[Hr Hall] He] Hs] Hd] _] Hsome].
    repeat split; try assumption.
    + intros e' ->. cbn in He. lia.
    + destruct s as [s|]; [|contradiction]. exists s. cbn in Hs. split; [reflexivity | lia].
    + intros d' ->. cbn in Hd. lia.
  - intros (Hr & Hall & He & (s' & -> & Hs) & Hd).
    repeat split; try assumption; try discriminate.
    + destruct e as [e|]; cbn; [apply Z.leb_le, He; reflexivity | reflexivity].
    + cbn. apply Z.leb_le, Hs.
    + destruct d as [d|]; cbn; [apply Z.leb_le, Hd; reflexivity | reflexivity].
Qed.

Lemma invariants_hold_local (e : option Z) (r : Release.t) (s : option Subrelease)
    (d : option Z) (l : option string) :
  invariants_hold (Version.mk e r s d l)
  = invariants_hold (Version.mk e r s d None) && from_option local_label_ok true l.
Proof.
  unfold invariants_hold.
  cbn [Version.epoch Version.release Version.subrelease Version.dev Version.local].
  cbn [from_option]. rewrite andb_true_r. reflexivity.
Qed.

(** X15: [Version.validate] accepts exactly the values that have a
    subrelease, whose local label is not the empty string, and that
    satisfy the invariants once the dev number is left out: the dev number
    itself is not looked at. *)
Theorem Version_validate_iff (v : Version.t) :
  Version.validate v = Ok tt
  ↔ invariants_hold (Version.mutate v (Version.set_dev None)) = true ∧
    Version.subrelease v ≠ None ∧ Version.local v ≠ Some "".
Proof.
  destruct v as [e r s d l].
  cbn [Version.mutate Version.epoch Version.release Version.subrelease Version.local].
  rewrite invariants_hold_local.
  pose proof (PublicVersion_validate_bool (PublicVersion.mk e r s None)) as Hpub.
  cbn [PublicVersion.epoch PublicVersion.release PublicVersion.subrelease PublicVersion.dev]
    in Hpub.
  destruct l as [l|].
  - destruct (PublicVersion.validate (PublicVersion.mk e r s None)) as [[]|err] eqn:Hp.
    + rewrite (Version_validate_local e r s d l Hp).
      destruct (proj1 Hpub eq_refl) as [Hinv Hs]. rewrite Hinv.
      cbn [from_option andb].
      destruct (String.eqb_spec l "") as [->|Hl].
      * cbn. split; [discriminate | intros (_ & _ & H); congruence].
      * rewrite andb_true_r. destruct (local_label_ok l).
        -- split; [intros _; repeat split; congruence | reflexivity].
        -- split; [destruct (forallb _ _); discriminate | intros (? & _); discriminate].
    + unfold Version.validate, Version.public.
      cbn [Version.epoch Version.release Version.subrelease]. rewrite Hp.
      cbn [mbind result_bind].
      split; [discriminate|]. intros (Hinv & Hs & _).
      apply andb_true_iff in Hinv as [Hinv _].
      assert (H : Raise err = Ok tt) by (apply Hpub; split; assumption).
      discriminate H.
  - unfold Version.validate, Version.public.
    cbn [Version.epoch Version.release Version.subrelease Version.local from_option].
    rewrite andb_true_r.
    destruct (PublicVersion.validate (PublicVersion.mk e r s None)) as [[]|err] eqn:Hp;
      cbn [mbind result_bind].
    + destruct (proj1 Hpub eq_refl) as [Hinv Hs].
      split; [intros _; repeat split; (assumption || discriminate) | reflexivity].
    + split; [discriminate|]. intros (Hinv & Hs & _).
      assert (H : Raise err = Ok tt) by (apply Hpub; split; assumption).
      discriminate H.
Qed.

(** ** More on comparison *)

(** X16: the methods [__ge__] and [__le__] of a subrelease answer [True]
    for an equal subrelease, without looking further; for any other
    subrelease they run into the recursion of [__gt__], and for [None]
    into its [AttributeError]. *)
Theorem Subrelease_ge_le (limit : nat) (a b : Subrelease) :
  Subrelease___ge__ (inner limit) a (PSub b)
  = (if bool_decide (a = b) then Ok true else Raise RecursionError) ∧
  Subrelease___le__ (inner limit) a (PSub b)
  = (if bool_decide (a = b) then Ok true else Raise RecursionError) ∧
  Subrelease___ge__ (inner limit) a PNone = Raise AttributeError ∧
  Subrelease___le__ (inner limit) a PNone = Raise AttributeError.
Proof.
  assert (Hgt : Subrelease_gt (inner limit) a (PSub b) = Raise RecursionError).
  { unfold Subrelease_gt, Subrelease___gt__.
    destruct limit as [|n]; [reflexivity|].
    cbn. rewrite op_gt_Subrelease_recursion. reflexivity. }
  unfold Subrelease___le__, Subrelease___lt__, Subrelease___ge__, py_eq.
  repeat split; try reflexivity.
  - case_bool_decide as Hab.
    + rewrite bool_decide_eq_true_2 by congruence. reflexivity.
    + rewrite bool_decide_eq_false_2 by congruence. exact Hgt.
  - case_bool_decide as Hab.
    + rewrite bool_decide_eq_true_2 by congruence. reflexivity.
    + rewrite !bool_decide_eq_false_2 by congruence. rewrite Hgt. reflexivity.
Qed.

(** X17: [_comparable] never fills a field: it returns the value itself
    when the epoch, and the dev number and the local label where the class
    has them, are all present, and raises [AttributeError] otherwise.  A
    version value compares equal to itself. *)
Theorem comparable_form_never_fills (limit : nat) (v : version) :
  _comparable v = (if nothing_to_fill v then Ok v else Raise AttributeError) ∧
  compare limit v v = Ok (Some 0).
Proof.
  split.
  - destruct v as [[[e|] r]|[[e|] r s [d|]]|[[e|] r s [d|] [l|]]]; reflexivity.
  - compare_directly. unfold _compare, tuple_eq.
    rewrite bool_decide_eq_true_2 by reflexivity. reflexivity.
Qed.

(** X18: a public version compares greater than its own projection to a
    final version: the epoch and the release are equal, and the longer
    tuple is the greater. *)
Theorem compare_final_projection (limit : nat) (p : PublicVersion.t) :
  compare limit (VFinal (PublicVersion.final p)) (VPublic p) = Ok (Some (-1)) ∧
  compare limit (VPublic p) (VFinal (PublicVersion.final p)) = Ok (Some 1).
Proof.
  destruct p as [e r s d].
  unfold compare, compare_with, _compare, tuple_eq, tuple_gt, tuple_lt.
  cbn [to_tuple PublicVersion.final FinalVersion.epoch FinalVersion.release
       PublicVersion.epoch PublicVersion.release PublicVersion.subrelease PublicVersion.dev].
  rewrite !bool_decide_eq_false_2 by discriminate.
  rewrite !tuple_cons_eq. split; reflexivity.
Qed.

Lemma lex_compare_eq (v w : list Z) : lex_compare v w = Eq ↔ v = w.
Proof.
  revert w. induction v as [|x v IH]; intros [|y w]; cbn; try (split; congruence).
  destruct (Z.compare_spec x y) as [->|H|H].
  - rewrite IH. split; congruence.
  - split; [discriminate | intros [= -> _]; lia].
  - split; [discriminate | intros [= -> _]; lia].
Qed.

Lemma Release_gt_lex (v w : list Z) :
  tuple_richcompare Z.eqb (fun x y => Ok (y <? x)) (fun m n => n <? m) v w
  = Ok (bool_decide (lex_compare v w = Gt)).
Proof.
  revert w. induction v as [|x v IH]; intros [|y w]; try reflexivity.
  cbn [tuple_richcompare lex_compare].
  destruct (Z.compare_spec x y) as [->|H|H].
  - rewrite Z.eqb_refl. apply IH.
  - replace (x =? y) with false by (symmetry; apply Z.eqb_neq; lia).
    replace (y <? x) with false by (symmetry; apply Z.ltb_ge; lia). reflexivity.
  - replace (x =? y) with false by (symmetry; apply Z.eqb_neq; lia).
    replace (y <? x) with true by (symmetry; apply Z.ltb_lt; lia). reflexivity.
Qed.

Lemma Release_lt_lex (v w : list Z) :
  tuple_richcompare Z.eqb (fun x y => Ok (x <? y)) (fun m n => m <? n) v w
  = Ok (bool_decide (lex_compare v w = Lt)).
Proof.
  revert w. induction v as [|x v IH]; intros [|y w]; try reflexivity.
  cbn [tuple_richcompare lex_compare].
  destruct (Z.compare_spec x y) as [->|H|H].
  - rewrite Z.eqb_refl. apply IH.
  - replace (x =? y) with false by (symmetry; apply Z.eqb_neq; lia).
    replace (x <? y) with true by (symmetry; apply Z.ltb_lt; lia). reflexivity.
  - replace (x =? y) with false by (symmetry; apply Z.eqb_neq; lia).
    replace (x <? y) with false by (symmetry; apply Z.ltb_ge; lia). reflexivity.
Qed.

Lemma op_gt_Release (limit : nat) (a b : list Z) :
  op_gt limit (PRelease a) (PRelease b) = Ok (bool_decide (lex_compare a b = Gt)).
Proof.
  rewrite op_gt_unfold.
  unfold dispatch_gt, dispatch, method_gt, builtin___gt__, Release___gt__.
  rewrite Release_gt_lex. reflexivity.
Qed.

Lemma op_lt_Release (limit : nat) (a b : list Z) :
  op_lt limit (PRelease a) (PRelease b) = Ok (bool_decide (lex_compare a b = Lt)).
Proof.
  unfold op_lt, dispatch_lt, dispatch, method_lt, builtin___lt__, Release___lt__.
  rewrite Release_lt_lex. reflexivity.
Qed.

(** Two final versions with equal first items: the releases decide. *)
Lemma _compare_final_releases (limit : nat) (a b : FinalVersion.t) (e : pyval) :
  opt_int (FinalVersion.epoch a) = e → opt_int (FinalVersion.epoch b) = e →
  _compare limit (VFinal a) (VFinal b)
  = Ok (Some (sign (lex_compare (FinalVersion.release a) (FinalVersion.release b)))).
Proof.
  destruct a as [ea ra], b as [eb rb]. cbn [FinalVersion.epoch FinalVersion.release].
  intros Hea Heb. unfold _compare, tuple_eq, tuple_gt, tuple_lt.
  cbn [to_tuple FinalVersion.epoch FinalVersion.release]. rewrite Hea, Heb.
  destruct (decide (ra = rb)) as [->|Hr].
  - rewrite bool_decide_eq_true_2 by reflexivity.
    rewrite (proj2 (lex_compare_eq rb rb) eq_refl). reflexivity.
  - rewrite bool_decide_eq_false_2 by congruence.
    rewrite !tuple_cons_eq, !tuple_cons_ne by congruence.
    rewrite op_gt_Release, op_lt_Release.
    assert (Hne : lex_compare ra rb ≠ Eq) by (intros H; apply Hr, lex_compare_eq, H).
    destruct (lex_compare ra rb); [contradiction | reflexivity | reflexivity].
Qed.

(** Two final versions with epochs that differ: the epochs decide. *)
Lemma _compare_final_epochs (limit : nat) (x y : Z) (ra rb : Release.t) :
  x ≠ y →
  _compare limit (VFinal (FinalVersion.mk (Some x) ra)) (VFinal (FinalVersion.mk (Some y) rb))
  = Ok (Some (sign (x ?= y))).
Proof.
  intros Hxy. unfold _compare, tuple_eq, tuple_gt, tuple_lt.
  cbn [to_tuple FinalVersion.epoch FinalVersion.release opt_int].
  rewrite bool_decide_eq_false_2 by congruence.
  rewrite !tuple_cons_ne by congruence.
  rewrite op_gt_int, op_lt_int. cbn [mbind result_bind].
  destruct (Z.compare_spec x y) as [H|H|H]; [contradiction| |].
  - replace (y <? x) with false by (symmetry; apply Z.ltb_ge; lia).
    replace (x <? y) with true by (symmetry; apply Z.ltb_lt; lia). reflexivity.
  - replace (y <? x) with true by (symmetry; apply Z.ltb_lt; lia). reflexivity.
Qed.

Lemma _compare_final_present (limit : nat) (x y : Z) (ra rb : Release.t) :
  _compare limit (VFinal (FinalVersion.mk (Some x) ra)) (VFinal (FinalVersion.mk (Some y) rb))
  = Ok (Some (sign (match x ?= y with Eq => lex_compare ra rb | c => c end))).
Proof.
  destruct (decide (x = y)) as [->|Hxy].
  - rewrite Z.compare_refl.
    apply (_compare_final_releases limit (FinalVersion.mk (Some y) ra)
             (FinalVersion.mk (Some y) rb) (PInt y)); reflexivity.
  - rewrite _compare_final_epochs by exact Hxy.
    destruct (Z.compare_spec x y); [contradiction | reflexivity | reflexivity].
Qed.

Lemma op_gt_int_None (limit : nat) (n : Z) : op_gt limit (PInt n) PNone = Raise TypeError.
Proof. rewrite op_gt_unfold. reflexivity. Qed.

(** X19: on two final versions [compare] answers exactly when the
    epochs are both present or both absent: then it orders them by the
    epoch and, for equal epochs, by the release, lexicographically.  With
    one epoch present and the other absent it raises [TypeError]. *)
Theorem compare_final_versions (limit : nat) (a b : FinalVersion.t) :
  compare limit (VFinal a) (VFinal b)
  = (c ← opt_compare (FinalVersion.epoch a) (FinalVersion.epoch b);
     Ok (Some (sign match c with
                    | Eq => lex_compare (FinalVersion.release a) (FinalVersion.release b)
                    | _ => c
                    end))).
Proof.
  compare_directly.
  destruct a as [[x|] ra], b as [[y|] rb];
    cbn [FinalVersion.epoch FinalVersion.release opt_compare mbind result_bind].
  - rewrite _compare_final_present. destruct (x ?= y); reflexivity.
  - unfold _compare, tuple_eq, tuple_gt.
    cbn [to_tuple FinalVersion.epoch FinalVersion.release opt_int].
    rewrite bool_decide_eq_false_2 by discriminate.
    rewrite tuple_cons_ne by discriminate.
    rewrite op_gt_int_None. reflexivity.
  - unfold _compare, tuple_eq, tuple_gt.
    cbn [to_tuple FinalVersion.epoch FinalVersion.release opt_int].
    rewrite bool_decide_eq_false_2 by discriminate.
    rewrite tuple_cons_ne by discriminate.
    rewrite op_gt_None_int. reflexivity.
  - apply (_compare_final_releases limit (FinalVersion.mk None ra)
             (FinalVersion.mk None rb) PNone); reflexivity.
Qed.

Lemma op_gt_opt_sub (limit : nat) (sa sb : option Subrelease) :
  sa ≠ sb → ∃ e, e ≠ TypeError ∧ op_gt limit (opt_sub sa) (opt_sub sb) = Raise e.
Proof.
  intros Hs. destruct sa as [a|], sb as [b|]; cbn [opt_sub].
  - exists RecursionError. split; [discriminate | apply op_gt_Subrelease_recursion].
  - exists AttributeError. split; [discriminate | rewrite op_gt_unfold; reflexivity].
  - exists AttributeError. split; [discriminate | rewrite op_gt_unfold; reflexivity].
  - contradiction.
Qed.

Lemma opt_sub_inj (a b : option Subrelease) : opt_sub a = opt_sub b → a = b.
Proof. destruct a, b; cbn; congruence. Qed.

(** Equal first two items, subreleases that differ: no answer. *)
Lemma _compare_public_subreleases (limit : nat) (e : option Z) (r : Release.t)
    (sa sb : option Subrelease) (da db : option Z) :
  sa ≠ sb →
  ∃ err, err ≠ TypeError ∧
    _compare limit (VPublic (PublicVersion.mk e r sa da))
                   (VPublic (PublicVersion.mk e r sb db)) = Raise err.
Proof.
  intros Hs. destruct (op_gt_opt_sub limit sa sb Hs) as (err & Herr & Hgt).
  exists err. split; [exact Herr|].
  assert (Hne : opt_sub sa ≠ opt_sub sb) by (intros H; apply Hs, opt_sub_inj, H).
  unfold _compare, tuple_eq, tuple_gt.
  cbn [to_tuple PublicVersion.epoch PublicVersion.release PublicVersion.subrelease
       PublicVersion.dev].
  rewrite bool_decide_eq_false_2 by congruence.
  rewrite !tuple_cons_eq, tuple_cons_ne by exact Hne.
  rewrite Hgt. reflexivity.
Qed.

(** X20: two public versions with the same epoch (an absent one counting
    as 0) and the same release, but different subreleases, cannot be
    compared: [compare] raises, whether one of the subreleases is absent
    or not. *)
Theorem compare_subreleases_raises (limit : nat) (p q : PublicVersion.t) :
  default 0 (PublicVersion.epoch p) = default 0 (PublicVersion.epoch q) →
  PublicVersion.release p = PublicVersion.release q →
  PublicVersion.subrelease p ≠ PublicVersion.subrelease q →
  is_ok (compare limit (VPublic p) (VPublic q)) = false.
Proof.
  destruct p as [ep r sa da], q as [eq r' sb db].
  cbn [PublicVersion.epoch PublicVersion.release PublicVersion.subrelease].
  intros He <- Hs. compare_directly.
  destruct ep as [x|], eq as [y|]; cbn in He; subst.
  - destruct (_compare_public_subreleases limit (Some y) r sa sb da db Hs) as (err & _ & ->).
    reflexivity.
  - replace (_compare limit (VPublic (PublicVersion.mk (Some 0) r sa da))
                            (VPublic (PublicVersion.mk None r sb db)))
      with (Raise TypeError : result (option Z)); [reflexivity|].
    unfold _compare, tuple_eq, tuple_gt.
    cbn [to_tuple PublicVersion.epoch opt_int].
    rewrite bool_decide_eq_false_2 by discriminate.
    rewrite tuple_cons_ne by discriminate.
    rewrite op_gt_int_None. reflexivity.
  - replace (_compare limit (VPublic (PublicVersion.mk None r sa da))
                            (VPublic (PublicVersion.mk (Some 0) r sb db)))
      with (Raise TypeError : result (option Z)); [reflexivity|].
    unfold _compare, tuple_eq, tuple_gt.
    cbn [to_tuple PublicVersion.epoch opt_int].
    rewrite bool_decide_eq_false_2 by discriminate.
    rewrite tuple_cons_ne by discriminate.
    rewrite op_gt_None_int. reflexivity.
  - destruct (_compare_public_subreleases limit None r sa sb da db Hs) as (err & _ & ->).
    reflexivity.
Qed.

Lemma compare_subreleases_raises_witness :
  is_ok (compare 1000
           (VPublic (PublicVersion.mk None [1; 0]
                       (Some (mkSubrelease SubreleaseType.ALPHA 1)) None))
           (VPublic (PublicVersion.mk (Some 0) [1; 0]
                       (Some (mkSubrelease SubreleaseType.BETA 1)) None))) = false.
Proof.
  apply (compare_subreleases_raises 1000
           (PublicVersion.mk None [1; 0] (Some (mkSubrelease SubreleaseType.ALPHA 1)) None)
           (PublicVersion.mk (Some 0) [1; 0] (Some (mkSubrelease SubreleaseType.BETA 1)) None));
    [reflexivity | reflexivity | discriminate].
Defined.

(** ** Parsing returns validated values only *)



(** ** bumpversion.cli *)

(** X22: [_loads_bool] reads what [_dumps_bool] wrote as the opposite
    truth value: the list of [_dumps_bool] has ["True"] at index 0, and
    [int(True)] is 1. *)
Theorem Cli_bool_roundtrip (val : bool) :
  (s ← Cli._dumps_bool val; Cli._loads_bool s) = Ok (negb val).
Proof. destruct val; vm_compute; reflexivity. Qed.

Lemma enumerate_lookup {A : Type} (args : list A) (k i : nat) (a : A) :
  Cli.enumerate args !! k = Some (i, a) ↔ i = k ∧ args !! k = Some a.
Proof.
  unfold Cli.enumerate. rewrite lookup_zip_Some, lookup_seq.
  split.
  - intros [[-> _] Ha]. split; [reflexivity | exact Ha].
  - intros [-> Ha]. repeat split; [|exact Ha].
    apply lookup_lt_Some in Ha. exact Ha.
Qed.

Lemma enumerate_snd {A : Type} (args : list A) : (Cli.enumerate args).*2 = args.
Proof. unfold Cli.enumerate. apply snd_zip. rewrite length_seq. reflexivity. Qed.

Lemma omap_partition {A B : Type} (c : A → bool) (f : A → B) (l : list A) :
  omap (fun x => if c x then Some (f x) else None) l
  ++ omap (fun x => if c x then None else Some (f x)) l ≡ₚ f <$> l.
Proof.
  induction l as [|x l IH]; [reflexivity|].
  cbn. destruct (c x); cbn.
  - rewrite IH. reflexivity.
  - rewrite <- Permutation_middle, IH. reflexivity.
Qed.

Lemma positions_elem (args : list string) (i : nat) :
  i ∈ Cli.positions args ↔ ∃ a, args !! i = Some a ∧ Cli.is_positional args i a = true.
Proof.
  unfold Cli.positions. rewrite list_elem_of_omap. split.
  - intros ([k a] & Hin & Hf).
    apply list_elem_of_lookup in Hin as [j Hj].
    apply enumerate_lookup in Hj as [-> Ha].
    destruct (Cli.is_positional args j a) eqn:Hp; [|discriminate].
    injection Hf as <-. eauto.
  - intros (a & Ha & Hp). exists (i, a). split.
    + apply list_elem_of_lookup. exists i. apply enumerate_lookup. auto.
    + rewrite Hp. reflexivity.
Qed.

(** X23: [split_args_in_optional_and_positional] only sorts the
    arguments into two lists: together they are the arguments again, no
    positional argument starts with a dash, and every argument that does
    stays with the options. *)
Theorem split_args_partition (args : list string) :
  let '(positionals, options) := Cli.split_args_in_optional_and_positional args in
  positionals ++ options ≡ₚ args ∧
  Forall (fun a => Cli.startswith_dash a = false) positionals ∧
  (∀ a, a ∈ args → Cli.startswith_dash a = true → a ∈ options).
Proof.
  unfold Cli.split_args_in_optional_and_positional.
  set (c := fun p : nat * string => bool_decide (p.1 ∈ Cli.positions args)).
  assert (Hpos : ∀ l : list (nat * string),
    omap (fun '(i, arg) => if bool_decide (i ∈ Cli.positions args) then Some arg else None) l
    = omap (fun p => if c p then Some p.2 else None) l).
  { intros l. induction l as [|[i a] l IH]; [reflexivity|]. cbn. rewrite IH. reflexivity. }
  assert (Hopt : ∀ l : list (nat * string),
    omap (fun '(i, arg) => if bool_decide (i ∈ Cli.positions args) then None else Some arg) l
    = omap (fun p => if c p then None else Some p.2) l).
  { intros l. induction l as [|[i a] l IH]; [reflexivity|]. cbn. rewrite IH. reflexivity. }
  rewrite Hpos, Hopt. split; [|split].
  - rewrite omap_partition. rewrite enumerate_snd. reflexivity.
  - apply Forall_forall. intros a Ha.
    apply list_elem_of_omap in Ha as ([i a'] & Hin & Hf).
    unfold c in Hf. cbn [fst snd] in Hf.
    case_bool_decide as Hi; [|discriminate]. injection Hf as <-.
    apply list_elem_of_lookup in Hin as [k Hk].
    apply enumerate_lookup in Hk as [-> Ha'].
    apply positions_elem in Hi as (a & Ha & Hp).
    rewrite Ha' in Ha. injection Ha as <-.
    unfold Cli.is_positional in Hp.
    apply andb_true_iff in Hp as [Hp _]. apply negb_true_iff in Hp. exact Hp.
  - intros a Ha Hdash.
    apply list_elem_of_lookup in Ha as [i Hi].
    apply list_elem_of_omap. exists (i, a). split.
    + apply list_elem_of_lookup. exists i. apply enumerate_lookup. auto.
    + unfold c. cbn [fst snd]. rewrite bool_decide_eq_false_2; [reflexivity|].
      intros Hin. apply positions_elem in Hin as (a' & Ha' & Hp).
      rewrite Hi in Ha'. injection Ha' as <-.
      unfold Cli.is_positional in Hp. rewrite Hdash in Hp. discriminate Hp.
Qed.

(** ** compare is the direct comparison *)

(** X24: the second attempt of [compare] never changes anything: on all
    version values [compare] gives what the direct comparison [_compare]
    gives, the same result or the same error. *)
Theorem compare_is_direct_comparison (limit : nat) (a b : version) :
  compare limit a b = _compare limit a b.
Proof. compare_directly. reflexivity. Qed.

Lemma opt_compare_refl (a : option Z) : opt_compare a a = Ok Eq.
Proof. destruct a; cbn; [rewrite Z.compare_refl|]; reflexivity. Qed.

Lemma op_opt_int (limit : nat) (a b : option Z) :
  a ≠ b →
  op_gt limit (opt_int a) (opt_int b)
  = (c ← opt_compare a b; Ok (bool_decide (c = Gt))) ∧
  op_lt limit (opt_int a) (opt_int b)
  = (c ← opt_compare a b; Ok (bool_decide (c = Lt))).
Proof.
  intros Hab. rewrite op_gt_unfold.
  destruct a as [x|], b as [y|]; try (split; reflexivity); [|contradiction].
  cbn. destruct (Z.compare_spec x y) as [->|H|H]; [contradiction| |].
  - replace (y <? x) with false by (symmetry; apply Z.ltb_ge; lia).
    replace (x <? y) with true by (symmetry; apply Z.ltb_lt; lia). split; reflexivity.
  - replace (y <? x) with true by (symmetry; apply Z.ltb_lt; lia).
    replace (x <? y) with false by (symmetry; apply Z.ltb_ge; lia). split; reflexivity.
Qed.

(** The first of two optional ints that differ decides. *)
Lemma _compare_opt_int_decides (limit : nat) (a b : option Z) (v w : version)
    (pre ta tb : list pyval) :
  to_tuple v = (pre ++ opt_int a :: ta)%list →
  to_tuple w = (pre ++ opt_int b :: tb)%list →
  a ≠ b →
  _compare limit v w = (c ← opt_compare a b; Ok (Some (sign c))).
Proof.
  intros Hv Hw Hab. unfold _compare, tuple_eq, tuple_gt, tuple_lt.
  rewrite Hv, Hw.
  assert (Hne : opt_int a ≠ opt_int b) by (intros H; apply Hab, opt_int_inj, H).
  rewrite bool_decide_eq_false_2
    by (intros H; apply app_inv_head in H; congruence).
  assert (Hskip : ∀ op sz,
    tuple_richcompare py_eq op sz (pre ++ opt_int a :: ta)%list (pre ++ opt_int b :: tb)%list
    = op (opt_int a) (opt_int b)).
  { intros op sz. clear Hv Hw. induction pre as [|x pre IH].
    - apply tuple_cons_ne, Hne.
    - cbn [app]. rewrite tuple_cons_eq. exact IH. }
  rewrite !Hskip.
  destruct (op_opt_int limit a b Hab) as [-> ->].
  destruct (opt_compare a b) as [c|e] eqn:Hc; cbn [mbind result_bind]; [|reflexivity].
  destruct c; try reflexivity.
  destruct a, b; cbn in Hc; try discriminate; [|contradiction].
  injection Hc as Hc. apply Z.compare_eq in Hc. congruence.
Qed.

(** X25: two public versions with the same subrelease, present or not,
    are ordered by the epoch, then by the release, then by the dev number;
    where an epoch or a dev number has to decide and is present on one
    side only, [compare] raises [TypeError]. *)
Theorem compare_public_same_subrelease (limit : nat) (s : option Subrelease)
    (e1 e2 : option Z) (r1 r2 : Release.t) (d1 d2 : option Z) :
  compare limit (VPublic (PublicVersion.mk e1 r1 s d1))
                (VPublic (PublicVersion.mk e2 r2 s d2))
  = (c ← opt_compare e1 e2;
     match c with
     | Eq => match lex_compare r1 r2 with
             | Eq => c' ← opt_compare d1 d2; Ok (Some (sign c'))
             | c' => Ok (Some (sign c'))
             end
     | _ => Ok (Some (sign c))
     end).
Proof.
  compare_directly.
  destruct (decide (e1 = e2)) as [->|He].
  - rewrite opt_compare_refl. cbn [mbind result_bind].
    destruct (decide (r1 = r2)) as [->|Hr].
    + rewrite (proj2 (lex_compare_eq r2 r2) eq_refl).
      destruct (decide (d1 = d2)) as [->|Hd].
      * rewrite opt_compare_refl. unfold _compare, tuple_eq.
        rewrite bool_decide_eq_true_2 by reflexivity. reflexivity.
      * apply (_compare_opt_int_decides limit d1 d2 _ _
                 [opt_int e2; PRelease r2; opt_sub s] [] []); [reflexivity | reflexivity | exact Hd].
    + unfold _compare, tuple_eq, tuple_gt, tuple_lt.
      cbn [to_tuple PublicVersion.epoch PublicVersion.release PublicVersion.subrelease
           PublicVersion.dev].
      rewrite bool_decide_eq_false_2 by congruence.
      rewrite !tuple_cons_eq, !tuple_cons_ne by congruence.
      rewrite op_gt_Release, op_lt_Release.
      assert (Hne : lex_compare r1 r2 ≠ Eq) by (intros H; apply Hr, lex_compare_eq, H).
      destruct (lex_compare r1 r2); [contradiction | reflexivity | reflexivity].
  - rewrite (_compare_opt_int_decides limit e1 e2
               (VPublic (PublicVersion.mk e1 r1 s d1)) (VPublic (PublicVersion.mk e2 r2 s d2))
               [] [PRelease r1; opt_sub s; opt_int d1] [PRelease r2; opt_sub s; opt_int d2]
               eq_refl eq_refl He).
    destruct (opt_compare e1 e2) as [c|e] eqn:Hc; cbn [mbind result_bind]; [|reflexivity].
    destruct c; try reflexivity.
    destruct e1, e2; cbn in Hc; try discriminate; [|contradiction].
    injection Hc as Hc. apply Z.compare_eq in Hc. congruence.
Qed.
